(** * calculator_utils: the expression evaluation pipeline

    A shallow embedding of [src/calculator_utils.js]: the expression
    normalizer ([preprocessExpression]), the context builder
    ([buildVariableContext]), the two evaluators ([evaluateExpressionSimple],
    [evaluateExpression]) and the differentiator ([numericalDerivative]).

    - Numbers are IEEE 754 binary64 values, Rocq's primitive [float].
    - Strings are [string]s. The patterns of the source only tell ASCII
      digits, ASCII letters and a few ASCII signs from each other, so that
      every other character behaves like any character that is none of these.
    - Objects used as name-to-value maps are [gmap string JsVal].
    - Code that may throw returns an [Outcome]; [try]/[catch] is [try_catch].
    - The source evaluates text with [new Function]. The evaluators take the
      JavaScript engine as a parameter, a function from the context and the
      text to a value or an exception, and their general properties hold for
      every such engine. The examples that need numbers run on [jsEngine], an
      engine for the expression grammar of the calculator.
    - [evaluateExpression] calls itself from the callback of a [replace]; the
      model carries fuel that bounds the depth of these nested calls. *)

From Stdlib Require Import ZArith String Ascii List Bool Lia DecimalString.
From Stdlib Require Import PrimFloat SpecFloat FloatOps.
From stdpp Require Import base option gmap strings.
Import ListNotations.

Set Warnings "-register-all".
(* A decimal literal denotes the nearest binary64 value, as in JavaScript. *)
Set Warnings "-inexact-float".
Local Open Scope string_scope.

(** ** Characters and text *)

Definition isDigit (c : ascii) : bool :=
  let n := nat_of_ascii c in (48 <=? n)%nat && (n <=? 57)%nat.

Definition isLower (c : ascii) : bool :=
  let n := nat_of_ascii c in (97 <=? n)%nat && (n <=? 122)%nat.

Definition isUpper (c : ascii) : bool :=
  let n := nat_of_ascii c in (65 <=? n)%nat && (n <=? 90)%nat.

(** [[a-z]] under the [i] flag. *)
Definition isLetter (c : ascii) : bool := isLower c || isUpper c.

(** Equality of characters under the [i] flag. *)
Definition isChar (lower upper : ascii) (c : ascii) : bool :=
  Ascii.eqb c lower || Ascii.eqb c upper.

(** ** [String.prototype.replace] with a global regular expression

    A pattern is given by its matcher: [pat s] is [Some (n, r)] when the
    regular expression matches at the start of [s], consuming [n >= 1]
    characters that are replaced by [r]. The scan goes from left to right and
    resumes after the consumed characters; [skip] counts the characters of the
    current match that are still to be passed over. *)
Fixpoint replaceAll (pat : string -> option (nat * string)) (skip : nat)
  (s : string) : string :=
  match s with
  | EmptyString => EmptyString
  | String c t =>
      match skip with
      | S k => replaceAll pat k t
      | O =>
          match pat s with
          | Some (n, r) => r +:+ replaceAll pat (Nat.pred n) t
          | None => String c (replaceAll pat 0 t)
          end
      end
  end.

(** A pattern of two adjacent characters [a b] with [R a b], rewritten to
    [mk a b]. *)
Definition pairPattern (R : ascii -> ascii -> bool)
  (mk : ascii -> ascii -> string) (s : string) : option (nat * string) :=
  match s with
  | String a (String b _) => if R a b then Some (2%nat, mk a b) else None
  | _ => None
  end.

Definition star (a b : ascii) : string :=
  String a (String "*" (String b EmptyString)).

(** [/\^/g], replaced by ['**']. *)
Definition caretPattern (s : string) : option (nat * string) :=
  match s with
  | String c _ => if Ascii.eqb c "^" then Some (1%nat, "**") else None
  | EmptyString => None
  end.

(** [/(\d)([a-z])/gi] *)
Definition digitLetter (a b : ascii) : bool := isDigit a && isLetter b.
(** [/\)(\d)/g] *)
Definition closeDigit (a b : ascii) : bool := Ascii.eqb a ")" && isDigit b.
(** [/(\d)\(/g] *)
Definition digitOpen (a b : ascii) : bool := isDigit a && Ascii.eqb b "(".
(** [/\)\(/g] *)
Definition closeOpen (a b : ascii) : bool := Ascii.eqb a ")" && Ascii.eqb b "(".
(** [/pi/gi] *)
Definition piPair (a b : ascii) : bool := isChar "p" "P" a && isChar "i" "I" b.

(** The negative lookahead [(?![a-df-z])] under the [i] flag: the next
    character, when there is one, is not a letter other than [e]. *)
Definition blocksE (t : string) : bool :=
  match t with
  | String b _ => isLetter b && negb (isChar "e" "E" b)
  | EmptyString => false
  end.

(** [/e(?![a-df-z])/gi], replaced by ['E']. *)
Definition ePattern (s : string) : option (nat * string) :=
  match s with
  | String c t =>
      if isChar "e" "E" c && negb (blocksE t) then Some (1%nat, "E") else None
  | EmptyString => None
  end.

Definition preprocessExpression (expr : string) : string :=
  let s1 := replaceAll caretPattern 0 expr in
  let s2 := replaceAll (pairPattern digitLetter star) 0 s1 in
  let s3 := replaceAll (pairPattern closeDigit star) 0 s2 in
  let s4 := replaceAll (pairPattern digitOpen star) 0 s3 in
  let s5 := replaceAll (pairPattern closeOpen star) 0 s4 in
  let s6 := replaceAll (pairPattern piPair (fun _ _ => "PI")) 0 s5 in
  replaceAll ePattern 0 s6.

(** ** JavaScript values and outcomes *)

(** The functions of the host's [Math] object that [safeMath] exposes. *)
Inductive MathFn :=
| Math_sin | Math_cos | Math_tan | Math_sqrt | Math_abs | Math_exp
| Math_log | Math_log10 | Math_pow | Math_asin | Math_acos | Math_atan
| Math_sinh | Math_cosh | Math_tanh | Math_floor | Math_ceil | Math_round
| Math_min | Math_max.

Inductive JsVal :=
| JUndefined
| JNull
| JBool (b : bool)
| JNum (v : float)
| JStr (s : string)
| JFun (f : MathFn).

(** A name-to-value object ([{}] and its own enumerable properties). *)
Abbreviation Context := (gmap string JsVal).

(** The outcome of running a piece of code: it returns a value, it throws, or
    the model ran out of recursion fuel (see [evaluateExpression]). *)
Inductive Outcome (A : Type) :=
| Value (a : A)
| Thrown
| OutOfFuel.
Arguments Value {A} a.
Arguments Thrown {A}.
Arguments OutOfFuel {A}.

#[global] Instance Outcome_ret : MRet Outcome := fun A a => Value a.
#[global] Instance Outcome_bind : MBind Outcome := fun A B k m =>
  match m with
  | Value a => k a
  | Thrown => Thrown
  | OutOfFuel => OutOfFuel
  end.

(** [try { body } catch { return handler }] *)
Definition try_catch {A} (body : Outcome A) (handler : A) : Outcome A :=
  match body with
  | Thrown => Value handler
  | o => o
  end.

(** A host call that either returns or throws. *)
Definition hostCall {A} (r : option A) : Outcome A :=
  match r with
  | Some a => Value a
  | None => Thrown
  end.

Definition Math_PI : float := 0x1.921fb54442d18p+1%float.
Definition Math_E : float := 0x1.5bf0a8b145769p+1%float.

Definition safeMath : Context :=
  list_to_map
    [ ("sin", JFun Math_sin); ("cos", JFun Math_cos); ("tan", JFun Math_tan);
      ("sqrt", JFun Math_sqrt); ("abs", JFun Math_abs); ("exp", JFun Math_exp);
      ("ln", JFun Math_log); ("log", JFun Math_log10);
      ("PI", JNum Math_PI); ("E", JNum Math_E);
      ("pow", JFun Math_pow);
      ("asin", JFun Math_asin); ("acos", JFun Math_acos);
      ("atan", JFun Math_atan);
      ("sinh", JFun Math_sinh); ("cosh", JFun Math_cosh);
      ("tanh", JFun Math_tanh);
      ("floor", JFun Math_floor); ("ceil", JFun Math_ceil);
      ("round", JFun Math_round);
      ("min", JFun Math_min); ("max", JFun Math_max) ].

(** [Number.isFinite(result) ? result : null] *)
Definition finiteOrNull (result : JsVal) : option float :=
  match result with
  | JNum x => if PrimFloat.is_finite x then Some x else None
  | _ => None
  end.

(** ** Data model *)

(** A Variable entry, [{ name, value }]. Its two fields hold arbitrary
    JavaScript values, since [buildVariableContext] tests their types; an
    entry that is [null] or [undefined] reads, through [?.], as an entry whose
    two fields are [undefined]. *)
Module Var.
Record t := mk { name : JsVal; value : JsVal }.
End Var.

(** A FunctionDef, with the fields [calculator_utils.js] reads. [id] is an
    opaque identifier. [dependentVar] is identifier-like (data model): it is
    made of letters, digits and underscores, which the regular expression
    built from it matches literally. *)
Module FunctionDef.
Record t := mk {
  id : nat;
  expr : string;
  visible : bool;
  independentVar : string;
  dependentVar : string
}.
End FunctionDef.

(** ** Context builder *)

(** [context[name] = value] on an object created by [{}]: the assignment to
    ["__proto__"] reaches the setter inherited from [Object.prototype], which
    ignores a number and creates no own property. *)
Definition setProperty (context : Context) (name : string) (v : JsVal) : Context :=
  if String.eqb name "__proto__" then context else <[ name := v ]> context.

(** The callback of [variables.forEach]. *)
Definition addVariable (context : Context) (variable : Var.t) : Context :=
  match Var.name variable, Var.value variable with
  | JStr name, JNum v => setProperty context name (JNum v)
  | _, _ => context
  end.

Definition buildVariableContext (variables : list Var.t) : Context :=
  fold_left addVariable variables ∅.

(** [{ ...safeMath, ...varContext, [independentVar]: xValue }] *)
Definition mergeContext (varContext : Context) (independentVar : string)
  (xValue : float) : Context :=
  <[ independentVar := JNum xValue ]> (varContext ∪ safeMath).

(** ** Numbers and their decimal text

    [roundRatio num den] is the binary64 value nearest to [num / den] (ties to
    even): the value of a decimal literal, and the test of [Number::toString]
    for a digit string to denote a given number. *)
Definition roundRatio (num den : positive) : float :=
  SF2Prim (SFdiv prec emax (S754_finite false num 0) (S754_finite false den 0)).

(** The number [s * 10^p], rounded. *)
Definition decimalValue (s : Z) (p : Z) : float :=
  match s with
  | Zpos s' =>
      roundRatio (s' * Z.to_pos (10 ^ Z.max p 0)) (Z.to_pos (10 ^ Z.max (- p) 0))
  | _ => PrimFloat.zero
  end.

Definition decimalOfZ (n : Z) : string :=
  NilZero.string_of_uint (N.to_uint (Z.to_N n)).

Fixpoint zeros (n : nat) : string :=
  match n with
  | O => EmptyString
  | S k => String "0" (zeros k)
  end.

(** Whether [10^n <= m * 2^e]. *)
Definition pow10_le (m : positive) (e n : Z) : bool :=
  (10 ^ Z.max n 0 * 2 ^ Z.max (- e) 0 <=? Zpos m * 2 ^ Z.max e 0 * 10 ^ Z.max (- n) 0)%Z.

(** The [n] of [Number::toString] for [m * 2^e]: [10^(n-1) <= m * 2^e < 10^n]. *)
Definition decimalExponent (m : positive) (e : Z) : Z :=
  let g := ((Z.log2 (Zpos m) + e) * 30103 / 100000)%Z in
  match find (fun n => negb (pow10_le m e n)) [g - 1; g; g + 1; g + 2]%Z with
  | Some n => n
  | None => (g + 3)%Z
  end.

(** The candidates with [k] digits for [v = m * 2^e]: the two [k]-digit
    decimals around [v]; the answer is the one that reads back as [v], the
    closer one (the even one on a tie) when both do. *)
Definition digitsAt (v : float) (m : positive) (e n : Z) (k : Z) : option (Z * Z) :=
  let p := (k - n)%Z in
  let num := (Zpos m * 2 ^ Z.max e 0 * 10 ^ Z.max p 0)%Z in
  let den := (2 ^ Z.max (- e) 0 * 10 ^ Z.max (- p) 0)%Z in
  let lo := (num / den)%Z in
  let hi := (lo + 1)%Z in
  let r := (num mod den)%Z in
  let okLo := PrimFloat.eqb (decimalValue lo (- p)) v in
  let okHi := PrimFloat.eqb (decimalValue hi (- p)) v in
  let pick (s : Z) := if (s =? 10 ^ k)%Z then Some ((10 ^ (k - 1))%Z, (n + 1)%Z) else Some (s, n) in
  match okLo, okHi with
  | true, true =>
      if (2 * r <? den)%Z then pick lo
      else if (den <? 2 * r)%Z then pick hi
      else if Z.even lo then pick lo else pick hi
  | true, false => pick lo
  | false, true => pick hi
  | false, false => None
  end.

Fixpoint shortestDigits (v : float) (m : positive) (e n : Z) (k : Z) (fuel : nat)
  : option (Z * Z * Z) :=
  match fuel with
  | O => None
  | S fuel' =>
      match digitsAt v m e n k with
      | Some (s, n') => Some (s, k, n')
      | None => shortestDigits v m e n (k + 1) fuel'
      end
  end.

(** The layout of [Number::toString]: [s] has [k] digits and the number is
    [s * 10^(n-k)]. *)
Definition formatDecimal (s k n : Z) : string :=
  let digits := decimalOfZ s in
  if ((k <=? n) && (n <=? 21))%Z then digits +:+ zeros (Z.to_nat (n - k))
  else if ((0 <? n) && (n <=? 21))%Z then
    substring 0 (Z.to_nat n) digits +:+ "." +:+
    substring (Z.to_nat n) (Z.to_nat (k - n)) digits
  else if ((-6 <? n) && (n <=? 0))%Z then
    "0." +:+ zeros (Z.to_nat (- n)) +:+ digits
  else
    let e := (n - 1)%Z in
    let sign := if (e <? 0)%Z then "-" else "+" in
    if (k =? 1)%Z then digits +:+ "e" +:+ sign +:+ decimalOfZ (Z.abs e)
    else
      substring 0 1 digits +:+ "." +:+ substring 1 (Z.to_nat (k - 1)) digits
      +:+ "e" +:+ sign +:+ decimalOfZ (Z.abs e).

(** [Number::toString] in base 10, the text a number turns into when
    [String.prototype.replace] receives it from its callback. *)
Definition numberToString (v : float) : string :=
  match Prim2SF v with
  | S754_zero _ => "0"
  | S754_infinity false => "Infinity"
  | S754_infinity true => "-Infinity"
  | S754_nan => "NaN"
  | S754_finite sgn m e =>
      let a := PrimFloat.abs v in
      match shortestDigits a m e (decimalExponent m e) 1 17 with
      | Some (s, k, n) => (if sgn then "-" else "") +:+ formatDecimal s k n
      | None => "NaN"
      end
  end.

(** ** Calls of user functions in an expression

    [new RegExp(`${funcName}\\(([^)]+)\\)`, 'g')]: the name, an opening
    parenthesis, one or more characters other than [)], and a closing
    parenthesis. The name is matched letter by letter, which is what the
    regular expression does for the names of the data model, made of
    letters, digits and underscores. A name that holds a character special
    in a regular expression builds another pattern, or none: such names are
    outside this model. *)
Fixpoint stripPrefix (p s : string) : option string :=
  match p with
  | EmptyString => Some s
  | String a p' =>
      match s with
      | String b s' => if Ascii.eqb a b then stripPrefix p' s' else None
      | EmptyString => None
      end
  end.

(** The longest prefix without [)] and what follows it. *)
Fixpoint spanInner (s : string) : string * string :=
  match s with
  | EmptyString => (EmptyString, EmptyString)
  | String c t =>
      if Ascii.eqb c ")" then (EmptyString, s)
      else let (inner, rest) := spanInner t in (String c inner, rest)
  end.

(** [matchCall funcName s] is [Some (match, innerExpr)] when the pattern
    matches at the start of [s]. *)
Definition matchCall (funcName s : string) : option (string * string) :=
  match stripPrefix funcName s with
  | Some (String "(" t) =>
      match spanInner t with
      | (String c inner, String ")" _) =>
          Some (funcName +:+ "(" +:+ String c inner +:+ ")", String c inner)
      | _ => None
      end
  | _ => None
  end.

(** [text.replace(funcPattern, callback)], the callback receiving the match
    and its first group. *)
Fixpoint replaceCalls (funcName : string)
  (callback : string -> string -> Outcome string) (skip : nat) (s : string)
  : Outcome string :=
  match s with
  | EmptyString => Value EmptyString
  | String c t =>
      match skip with
      | S k => replaceCalls funcName callback k t
      | O =>
          match matchCall funcName s with
          | Some (m, innerExpr) =>
              r ← callback m innerExpr;
              rest ← replaceCalls funcName callback (Nat.pred (String.length m)) t;
              Value (r +:+ rest)
          | None =>
              rest ← replaceCalls funcName callback 0 t;
              Value (String c rest)
          end
      end
  end.

(** [value || fallback] on strings. *)
Definition orDefault (value fallback : string) : string :=
  match value with
  | EmptyString => fallback
  | _ => value
  end.

(** ** The evaluators *)

Section Evaluators.

(** [new Function(...Object.keys(allContext), `return ${processedExpr}`)]
    applied to [Object.values(allContext)]: the JavaScript engine compiles and
    runs the text with the names of the context bound to its values. It
    returns a value, or throws ([None]): a syntax error, an unbound name, a
    call of something that is not a function. *)
Variable engine : Context -> string -> option JsVal.

(** The last five statements of both evaluators. *)
Definition runProcessed (expr : string) (xValue : float)
  (independentVar : string) (variables : list Var.t) : Outcome (option float) :=
  let processedExpr := preprocessExpression expr in
  let varContext := buildVariableContext variables in
  let allContext := mergeContext varContext independentVar xValue in
  result ← hostCall (engine allContext processedExpr);
  Value (finiteOrNull result).

Definition evaluateExpressionSimple (expr : string) (xValue : float)
  (independentVar : string) (variables : list Var.t) : Outcome (option float) :=
  try_catch (runProcessed expr xValue independentVar variables) None.

(** The callback of [processedExpr.replace(funcPattern, ...)] for the function
    [func]; [self] is [evaluateExpression] with the configuration of the
    current call. *)
Definition substituteCall (self : string -> Outcome (option float))
  (func : FunctionDef.t) (variables : list Var.t) (m innerExpr : string)
  : Outcome string :=
  let funcIndepVar := orDefault (FunctionDef.independentVar func) "x" in
  try_catch
    (innerValue ← self innerExpr;
     match innerValue with
     | None => Value m
     | Some innerValue =>
         funcValue ← evaluateExpressionSimple (FunctionDef.expr func) innerValue
                       funcIndepVar variables;
         Value (match funcValue with
                | Some funcValue => numberToString funcValue
                | None => m
                end)
     end)
    m.

(** One turn of [functions.forEach]: the text after the calls of [func] have
    been rewritten. *)
Definition resolveFunction (self : string -> Outcome (option float))
  (currentFuncId : option nat) (variables : list Var.t)
  (processedExpr : string) (func : option FunctionDef.t) : Outcome string :=
  match func with
  | None => Value processedExpr
  | Some func =>
      if bool_decide (Some (FunctionDef.id func) = currentFuncId)
         || negb (FunctionDef.visible func)
      then Value processedExpr
      else
        let funcName := orDefault (FunctionDef.dependentVar func) "f" in
        replaceCalls funcName (substituteCall self func variables) 0 processedExpr
  end.

Fixpoint forEachFunction (step : string -> option FunctionDef.t -> Outcome string)
  (functions : list (option FunctionDef.t)) (processedExpr : string)
  : Outcome string :=
  match functions with
  | [] => Value processedExpr
  | func :: rest =>
      processedExpr' ← step processedExpr func;
      forEachFunction step rest processedExpr'
  end.

(** [fuel] bounds the depth of nested calls of [evaluateExpression]; a call
    that would go deeper ends in [OutOfFuel], which no [catch] intercepts. *)
Fixpoint evaluateExpression (fuel : nat) (expr : string) (xValue : float)
  (independentVar : string) (currentFuncId : option nat)
  (functions : list (option FunctionDef.t)) (variables : list Var.t)
  : Outcome (option float) :=
  match fuel with
  | O => OutOfFuel
  | S fuel' =>
      let self innerExpr :=
        evaluateExpression fuel' innerExpr xValue independentVar currentFuncId
          functions variables in
      try_catch
        (processedExpr ←
           forEachFunction (resolveFunction self currentFuncId variables)
             functions expr;
         runProcessed processedExpr xValue independentVar variables)
        None
  end.

Definition numericalDerivative (fuel : nat) (expr : string) (xValue : float)
  (independentVar : string) (currentFuncId : option nat)
  (functions : list (option FunctionDef.t)) (variables : list Var.t)
  (h : float) : Outcome (option float) :=
  f1 ← evaluateExpression fuel expr (xValue + h) independentVar currentFuncId
         functions variables;
  f2 ← evaluateExpression fuel expr (xValue - h) independentVar currentFuncId
         functions variables;
  match f1, f2 with
  | Some f1, Some f2 => Value (Some ((f1 - f2) / (2 * h))%float)
  | _, _ => Value None
  end.

End Evaluators.

(** ** A JavaScript engine for the expression grammar

    [jsEngine] is the engine restricted to the expression grammar of the
    calculator: one line of text made of decimal literals, identifiers, calls
    [name(arg, ...)], parentheses, unary [+ -] and binary [+ - * / **], over a
    context whose names are ASCII identifiers. Identifiers evaluate to the
    number the context binds them to, a call applies the [Math] function the
    context binds the name to, and a name the context does not bind is taken to
    be unbound in the global scope as well (as [f], [g] and [y] are). Text
    outside this grammar is answered with [None], which is what JavaScript
    does for the texts this file runs it on, though not for every text; a
    context with a name that is no identifier is answered with [None] as
    well, which is not what JavaScript does for every such name (a name can
    hold a comment or a default value), so that the engine stands for
    [new Function] on contexts with identifier names only. The
    [Math] functions are the host's, [math f args] being the result of [f] on
    the numbers [args]. *)

Inductive token :=
| TNum (v : float)
| TIdent (name : string)
| TPlus | TMinus | TStar | TSlash | TPow
| TLParen | TRParen | TComma.

Definition isIdentStart (c : ascii) : bool :=
  isLetter c || Ascii.eqb c "_" || Ascii.eqb c "$".

Definition isIdentPart (c : ascii) : bool := isIdentStart c || isDigit c.

(** Space, tab, vertical tab and form feed; a line terminator is outside the
    grammar. *)
Definition isSpace (c : ascii) : bool :=
  let n := nat_of_ascii c in
  (n =? 32)%nat || (n =? 9)%nat || (n =? 11)%nat || (n =? 12)%nat.

Fixpoint spanWhile (P : ascii -> bool) (s : string) : string * string :=
  match s with
  | EmptyString => (EmptyString, EmptyString)
  | String c t =>
      if P c then let (a, r) := spanWhile P t in (String c a, r)
      else (EmptyString, s)
  end.

Fixpoint digitsValue (acc : Z) (s : string) : Z :=
  match s with
  | EmptyString => acc
  | String c t => digitsValue (10 * acc + Z.of_nat (nat_of_ascii c) - 48)%Z t
  end.

Definition startsWith (P : ascii -> bool) (s : string) : bool :=
  match s with
  | String c _ => P c
  | EmptyString => false
  end.

(** The exponent part of a literal, [e], an optional sign and digits. *)
Definition lexExponent (s : string) : option (Z * string) :=
  match s with
  | String c t =>
      if isChar "e" "E" c then
        let (neg, t') :=
          match t with
          | String "-" u => (true, u)
          | String "+" u => (false, u)
          | _ => (false, t)
          end in
        match spanWhile isDigit t' with
        | (EmptyString, _) => None
        | (ds, r) => Some (if neg then (- digitsValue 0 ds)%Z else digitsValue 0 ds, r)
        end
      else Some (0%Z, s)
  | EmptyString => Some (0%Z, s)
  end.

(** A decimal literal; an integer part with a leading zero and more digits
    (the legacy octal forms) is outside the grammar, and so is a literal
    followed at once by an identifier character. *)
Definition lexNumber (s : string) : option (float * string) :=
  let (ip, r1) := spanWhile isDigit s in
  let (fp, r2) :=
    match r1 with
    | String "." t => spanWhile isDigit t
    | _ => (EmptyString, r1)
    end in
  if ((1 <? String.length ip)%nat && startsWith (Ascii.eqb "0") ip)
     || ((String.length ip =? 0)%nat && (String.length fp =? 0)%nat)
  then None
  else
    match lexExponent r2 with
    | Some (ex, r3) =>
        if startsWith isIdentPart r3 then None
        else
          Some (decimalValue (digitsValue 0 (ip +:+ fp))
                  (ex - Z.of_nat (String.length fp)), r3)
    | None => None
    end.

Definition reservedWords : list string :=
  [ "break"; "case"; "catch"; "class"; "const"; "continue"; "debugger";
    "default"; "delete"; "do"; "else"; "enum"; "export"; "extends"; "false";
    "finally"; "for"; "function"; "if"; "import"; "in"; "instanceof"; "new";
    "null"; "return"; "super"; "switch"; "this"; "throw"; "true"; "try";
    "typeof"; "var"; "void"; "while"; "with" ].

Definition isReserved (name : string) : bool :=
  existsb (String.eqb name) reservedWords.

Fixpoint lex (fuel : nat) (s : string) : option (list token) :=
  match fuel with
  | O => match s with EmptyString => Some [] | _ => None end
  | S fuel' =>
      match s with
      | EmptyString => Some []
      | String c t =>
          let one (tok : token) := cons tok <$> lex fuel' t in
          if isSpace c then lex fuel' t
          else if isDigit c || (Ascii.eqb c "." && startsWith isDigit t) then
            match lexNumber s with
            | Some (v, r) => cons (TNum v) <$> lex fuel' r
            | None => None
            end
          else if isIdentStart c then
            let (name, r) := spanWhile isIdentPart s in
            if isReserved name then None
            else cons (TIdent name) <$> lex fuel' r
          else if Ascii.eqb c "+" then
            if startsWith (Ascii.eqb "+") t then None else one TPlus
          else if Ascii.eqb c "-" then
            if startsWith (Ascii.eqb "-") t then None else one TMinus
          else if Ascii.eqb c "*" then
            match t with
            | String "*" t' => cons TPow <$> lex fuel' t'
            | _ => one TStar
            end
          else if Ascii.eqb c "/" then
            if startsWith (fun d => Ascii.eqb d "/" || Ascii.eqb d "*") t
            then None else one TSlash
          else if Ascii.eqb c "(" then one TLParen
          else if Ascii.eqb c ")" then one TRParen
          else if Ascii.eqb c "," then one TComma
          else None
      end
  end.

Inductive binop := Add | Sub | Mul | Div | Pow.

Inductive Expr :=
| ENum (v : float)
| EVar (name : string)
| ECall (name : string) (args : list Expr)
| ENeg (e : Expr)
| EPos (e : Expr)
| EBin (op : binop) (l r : Expr).

(** Recursive descent along the grammar of JavaScript: additive,
    multiplicative, exponentiation (right associative, and a syntax error
    after a unary operator), unary, call and primary expressions. *)
Fixpoint parseAdditive (fuel : nat) (ts : list token) : option (Expr * list token) :=
  match fuel with
  | O => None
  | S fuel' =>
      match parseMultiplicative fuel' ts with
      | Some (l, r) => additiveLoop fuel' l r
      | None => None
      end
  end
with additiveLoop (fuel : nat) (l : Expr) (ts : list token) : option (Expr * list token) :=
  match fuel with
  | O => None
  | S fuel' =>
      match ts with
      | TPlus :: r =>
          match parseMultiplicative fuel' r with
          | Some (e, r') => additiveLoop fuel' (EBin Add l e) r'
          | None => None
          end
      | TMinus :: r =>
          match parseMultiplicative fuel' r with
          | Some (e, r') => additiveLoop fuel' (EBin Sub l e) r'
          | None => None
          end
      | _ => Some (l, ts)
      end
  end
with parseMultiplicative (fuel : nat) (ts : list token) : option (Expr * list token) :=
  match fuel with
  | O => None
  | S fuel' =>
      match parseExponent fuel' ts with
      | Some (l, r) => multiplicativeLoop fuel' l r
      | None => None
      end
  end
with multiplicativeLoop (fuel : nat) (l : Expr) (ts : list token) : option (Expr * list token) :=
  match fuel with
  | O => None
  | S fuel' =>
      match ts with
      | TStar :: r =>
          match parseExponent fuel' r with
          | Some (e, r') => multiplicativeLoop fuel' (EBin Mul l e) r'
          | None => None
          end
      | TSlash :: r =>
          match parseExponent fuel' r with
          | Some (e, r') => multiplicativeLoop fuel' (EBin Div l e) r'
          | None => None
          end
      | _ => Some (l, ts)
      end
  end
with parseExponent (fuel : nat) (ts : list token) : option (Expr * list token) :=
  match fuel with
  | O => None
  | S fuel' =>
      match ts with
      | TPlus :: _ | TMinus :: _ =>
          match parseUnary fuel' ts with
          | Some (e, TPow :: _) => None
          | other => other
          end
      | _ =>
          match parseCall fuel' ts with
          | Some (b, TPow :: r) =>
              match parseExponent fuel' r with
              | Some (e, r') => Some (EBin Pow b e, r')
              | None => None
              end
          | other => other
          end
      end
  end
with parseUnary (fuel : nat) (ts : list token) : option (Expr * list token) :=
  match fuel with
  | O => None
  | S fuel' =>
      match ts with
      | TPlus :: r =>
          match parseUnary fuel' r with
          | Some (e, r') => Some (EPos e, r')
          | None => None
          end
      | TMinus :: r =>
          match parseUnary fuel' r with
          | Some (e, r') => Some (ENeg e, r')
          | None => None
          end
      | _ => parseCall fuel' ts
      end
  end
with parseCall (fuel : nat) (ts : list token) : option (Expr * list token) :=
  match fuel with
  | O => None
  | S fuel' =>
      match ts with
      | TNum v :: r => Some (ENum v, r)
      | TIdent name :: TLParen :: TRParen :: r => Some (ECall name [], r)
      | TIdent name :: TLParen :: r =>
          match parseArguments fuel' r with
          | Some (args, r') => Some (ECall name args, r')
          | None => None
          end
      | TIdent name :: r => Some (EVar name, r)
      | TLParen :: r =>
          match parseAdditive fuel' r with
          | Some (e, TRParen :: r') => Some (e, r')
          | _ => None
          end
      | _ => None
      end
  end
with parseArguments (fuel : nat) (ts : list token) : option (list Expr * list token) :=
  match fuel with
  | O => None
  | S fuel' =>
      match parseAdditive fuel' ts with
      | Some (e, TRParen :: r) => Some ([e], r)
      | Some (e, TComma :: r) =>
          match parseArguments fuel' r with
          | Some (args, r') => Some (e :: args, r')
          | None => None
          end
      | _ => None
      end
  end.

Definition parseExpression (text : string) : option Expr :=
  match lex (String.length text) text with
  | Some ts =>
      match parseAdditive (10 * List.length ts + 10) ts with
      | Some (e, []) => Some e
      | _ => None
      end
  | None => None
  end.

Section Engine.

Variable math : MathFn -> list float -> float.

Fixpoint evalExpr (ctx : Context) (e : Expr) : option float :=
  match e with
  | ENum v => Some v
  | EVar name =>
      match ctx !! name with
      | Some (JNum v) => Some v
      | _ => None
      end
  | ECall name args =>
      match ctx !! name with
      | Some (JFun f) =>
          (fix evalArgs (args : list Expr) : option (list float) :=
             match args with
             | [] => Some []
             | a :: rest =>
                 match evalExpr ctx a, evalArgs rest with
                 | Some v, Some vs => Some (v :: vs)
                 | _, _ => None
                 end
             end) args ≫= fun vs => Some (math f vs)
      | _ => None
      end
  | ENeg a => PrimFloat.opp <$> evalExpr ctx a
  | EPos a => evalExpr ctx a
  | EBin op l r =>
      match evalExpr ctx l, evalExpr ctx r with
      | Some x, Some y =>
          Some match op with
               | Add => (x + y)%float
               | Sub => (x - y)%float
               | Mul => (x * y)%float
               | Div => (x / y)%float
               | Pow => math Math_pow [x; y]
               end
      | _, _ => None
      end
  end.

(** A name that can be a parameter of [new Function]. *)
Definition isParameterName (name : string) : bool :=
  startsWith isIdentStart name
  && forallb isIdentPart (list_ascii_of_string name)
  && negb (isReserved name).

Definition jsEngine (ctx : Context) (text : string) : option JsVal :=
  if forallb (fun kv => isParameterName kv.1) (map_to_list ctx) then
    match parseExpression text with
    | Some e => JNum <$> evalExpr ctx e
    | None => None
    end
  else None.

End Engine.
(** ** Normal forms of the normalizer *)

(** Some two adjacent characters of [s] satisfy [R]. *)
Fixpoint adjacent (R : ascii -> ascii -> bool) (s : string) : bool :=
  match s with
  | EmptyString => false
  | String a t => startsWith (R a) t || adjacent R t
  end.

Fixpoint hasChar (c : ascii) (s : string) : bool :=
  match s with
  | EmptyString => false
  | String a t => Ascii.eqb a c || hasChar c t
  end.

(** A match of [pairPattern R mk] that the replacement alters. *)
Definition changes (R : ascii -> ascii -> bool) (mk : ascii -> ascii -> string)
  (a b : ascii) : bool :=
  R a b && negb (String.eqb (mk a b) (String a (String b EmptyString))).

(** What a rule may turn a character into: itself, or the upper case of the
    letters of [PI] and [E]. *)
Definition recased (a a' : ascii) : bool :=
  Ascii.eqb a a'
  || (isChar "p" "P" a && Ascii.eqb a' "P")
  || (isChar "i" "I" a && Ascii.eqb a' "I")
  || (isChar "e" "E" a && Ascii.eqb a' "E").

Definition recasedE (a a' : ascii) : bool :=
  Ascii.eqb a a' || (isChar "e" "E" a && Ascii.eqb a' "E").

(** [Rewrites keep s t]: [t] is [s] with some characters replaced along
    [keep] and some [*] inserted. *)
Inductive Rewrites (keep : ascii -> ascii -> bool) : string -> string -> Prop :=
| rw_nil : Rewrites keep EmptyString EmptyString
| rw_char a a' s t :
    keep a a' = true -> Rewrites keep s t ->
    Rewrites keep (String a s) (String a' t)
| rw_star s t :
    Rewrites keep s t -> Rewrites keep s (String "*" t).

(** The patterns of the rules see the class of a character only. *)
Definition classPattern (R : ascii -> ascii -> bool) : Prop :=
  forall a a' b b',
    recased a a' = true -> recased b b' = true -> R a' b' = R a b.

(** A pattern that no inserted [*] can take part in. *)
Definition starFree (R : ascii -> ascii -> bool) : Prop :=
  (forall a, R a "*"%char = false) /\ (forall b, R "*"%char b = false).

(** A pattern whose matches cannot overlap. *)
Definition apart (R : ascii -> ascii -> bool) : Prop :=
  forall a b c, R a b = true -> R b c = false.

Definition piChanges : ascii -> ascii -> bool := changes piPair (fun _ _ => "PI").


(** ** Reading the context builder *)

(** The entries [buildVariableContext] accepts: a string for a name and a
    number, finite or not, for a value. *)
Definition isVariable (variable : Var.t) : bool :=
  match Var.name variable, Var.value variable with
  | JStr _, JNum _ => true
  | _, _ => false
  end.

(** The entries whose name is a string and whose value is a finite number. *)
Definition isFiniteVariable (variable : Var.t) : bool :=
  match Var.name variable, Var.value variable with
  | JStr _, JNum v => PrimFloat.is_finite v
  | _, _ => false
  end.

(** Whether an entry that [buildVariableContext] accepts is named [name]. *)
Definition bindsName (name : string) (variable : Var.t) : bool :=
  match Var.name variable, Var.value variable with
  | JStr n, JNum _ => String.eqb n name
  | _, _ => false
  end.

(** "Last write wins": the value of the last accepted entry named [name]. *)
Fixpoint lastBinding (name : string) (variables : list Var.t) : option JsVal :=
  match variables with
  | [] => None
  | variable :: rest =>
      match lastBinding name rest with
      | Some v => Some v
      | None => if bindsName name variable then Some (Var.value variable) else None
      end
  end.

(** ** Reading the evaluators *)

(** What an evaluator returns for the answer of the engine. *)
Definition settle (r : option JsVal) : option float :=
  match r with
  | Some v => finiteOrNull v
  | None => None
  end.

Fixpoint dropChars (n : nat) (s : string) : string :=
  match n, s with
  | S k, String _ t => dropChars k t
  | _, _ => s
  end.

(** The text a call [m], with argument text [innerExpr], of the function
    [func] is replaced by: the argument is evaluated in the context of the
    current call, the expression of the function at that value, and the call
    is left as it is when either gives no number. *)
Definition substitution (engine : Context -> string -> option JsVal)
  (xValue : float) (independentVar : string) (variables : list Var.t)
  (func : FunctionDef.t) (m innerExpr : string) : string :=
  let varContext := buildVariableContext variables in
  match settle (engine (mergeContext varContext independentVar xValue)
                  (preprocessExpression innerExpr)) with
  | None => m
  | Some innerValue =>
      let funcIndepVar := orDefault (FunctionDef.independentVar func) "x" in
      match settle (engine (mergeContext varContext funcIndepVar innerValue)
                      (preprocessExpression (FunctionDef.expr func))) with
      | Some funcValue => numberToString funcValue
      | None => m
      end
  end.

(** [replaceCalls] for a callback that returns. *)
Fixpoint rewriteCalls (funcName : string) (sub : string -> string -> string)
  (skip : nat) (s : string) : string :=
  match s with
  | EmptyString => EmptyString
  | String c t =>
      match skip with
      | S k => rewriteCalls funcName sub k t
      | O =>
          match matchCall funcName s with
          | Some (m, innerExpr) =>
              sub m innerExpr +:+ rewriteCalls funcName sub (Nat.pred (String.length m)) t
          | None => String c (rewriteCalls funcName sub 0 t)
          end
      end
  end.

(** The text after the turn of [func] in [functions.forEach]. *)
Definition resolvedFunction (engine : Context -> string -> option JsVal)
  (xValue : float) (independentVar : string) (currentFuncId : option nat)
  (variables : list Var.t) (processedExpr : string) (func : option FunctionDef.t)
  : string :=
  match func with
  | None => processedExpr
  | Some func =>
      if bool_decide (Some (FunctionDef.id func) = currentFuncId)
         || negb (FunctionDef.visible func)
      then processedExpr
      else
        rewriteCalls (orDefault (FunctionDef.dependentVar func) "f")
          (substitution engine xValue independentVar variables func) 0
          processedExpr
  end.

(** The text [evaluateExpression] hands to the normalizer. *)
Definition resolvedText (engine : Context -> string -> option JsVal)
  (expr : string) (xValue : float) (independentVar : string)
  (currentFuncId : option nat) (functions : list (option FunctionDef.t))
  (variables : list Var.t) : string :=
  fold_left
    (resolvedFunction engine xValue independentVar currentFuncId variables)
    functions expr.

(** ** The names of the data model

    The names of variables and of functions are identifier-like: a letter or
    an underscore, then letters, digits and underscores. Such a name holds no
    character that is special in a regular expression, so that the pattern
    built from it matches it literally, as [matchCall] does; and it is a name
    of the kind [jsEngine] takes for the names of a context. *)
Definition isIdentifierLike (name : string) : bool :=
  match name with
  | EmptyString => false
  | String c t =>
      (isLetter c || Ascii.eqb c "_")
      && forallb (fun c => isLetter c || isDigit c || Ascii.eqb c "_")
           (list_ascii_of_string t)
  end.

(** Every function of the list has an identifier-like name and an
    identifier-like independent variable, the defaults taken for the empty
    ones. *)
Definition namedByIdentifiers (functions : list (option FunctionDef.t)) : bool :=
  forallb
    (fun func =>
       match func with
       | Some func =>
           isIdentifierLike (orDefault (FunctionDef.dependentVar func) "f")
           && isIdentifierLike (orDefault (FunctionDef.independentVar func) "x")
       | None => true
       end)
    functions.

(** Every entry that [buildVariableContext] accepts has an identifier-like
    name. *)
Definition identifierVariables (variables : list Var.t) : bool :=
  forallb
    (fun variable =>
       match Var.name variable, Var.value variable with
       | JStr name, JNum _ => isIdentifierLike name
       | _, _ => true
       end)
    variables.

(** ** A host for the examples *)

(** A [Math] object of which only [Math.sin(1)] is known. *)
Definition exampleMath (f : MathFn) (args : list float) : float :=
  match f, args with
  | Math_sin, [x] => if (x =? 1)%float then 0.8414709848078965%float else nan
  | _, _ => nan
  end.

(** * The application: [src/graphing_calculator_with_variables.jsx]

    The component keeps its state in [useState] cells. An event handler runs
    against the state of the render that created it: what it reads is that
    state, and each [setX(v)] it calls records [v] as the next value of the
    cell, a later call for the same cell replacing an earlier one. A handler is
    modelled as a function from the rendered state [s] to the next state, its
    pending state [next] threaded through the setters. *)

From Stdlib Require Import FloatAxioms.

(** A function of the list, with all the fields the component gives it. *)
Module Fn.
Record t := mk {
  id : nat;
  expr : string;
  derivative : string;
  color : string;
  visible : bool;
  name : string;
  independentVar : string;
  dependentVar : string
}.

(** What [calculator_utils.js] reads of it. *)
Definition toFunctionDef (f : t) : FunctionDef.t :=
  FunctionDef.mk (id f) (expr f) (visible f) (independentVar f) (dependentVar f).
End Fn.

(** A variable of the list, with its slider. *)
Module UiVar.
Record t := mk {
  name : string;
  value : float;
  min : float;
  max : float;
  step : float;
  locked : option bool
}.

(** [variable.locked], as a condition: an entry without the field is not
    locked. *)
Definition isLocked (v : t) : bool :=
  match locked v with
  | Some b => b
  | None => false
  end.

(** What [calculator_utils.js] reads of it. *)
Definition toVariable (v : t) : Var.t := Var.mk (JStr (name v)) (JNum (value v)).
End UiVar.

(** [import { evaluateExpression as evaluateExpressionUtil, ... }] *)
Definition evaluateExpressionUtil := evaluateExpression.
Definition evaluateExpressionSimpleUtil := evaluateExpressionSimple.
Definition numericalDerivativeUtil := numericalDerivative.

(** [String.prototype.trim], on the white space and line terminators below
    code 256. *)
Definition isTrimSpace (c : ascii) : bool :=
  let n := nat_of_ascii c in
  ((9 <=? n)%nat && (n <=? 13)%nat) || (n =? 32)%nat || (n =? 160)%nat.

Fixpoint trimStart (s : string) : string :=
  match s with
  | EmptyString => EmptyString
  | String c t => if isTrimSpace c then trimStart t else s
  end.

Fixpoint trimEnd (s : string) : string :=
  match s with
  | EmptyString => EmptyString
  | String c t =>
      match trimEnd t with
      | EmptyString => if isTrimSpace c then EmptyString else String c EmptyString
      | t' => String c t'
      end
  end.

Definition trim (s : string) : string := trimEnd (trimStart s).

(** [String.prototype.toLowerCase], on the characters below code 256: the
    upper-case letters are [A] to [Z] and the codes 192 to 222 without 215,
    each 32 below its lower-case letter. *)
Definition lowerChar (c : ascii) : ascii :=
  let n := nat_of_ascii c in
  if isUpper c
     || ((192 <=? n)%nat && (n <=? 222)%nat && negb (n =? 215)%nat)
  then ascii_of_nat (n + 32) else c.

Fixpoint toLowerCase (s : string) : string :=
  match s with
  | EmptyString => EmptyString
  | String c t => String (lowerChar c) (toLowerCase t)
  end.

(** [[a-zA-Z_]] and [\w]. *)
Definition isWordStart (c : ascii) : bool := isLetter c || Ascii.eqb c "_".
Definition isWord (c : ascii) : bool := isLetter c || isDigit c || Ascii.eqb c "_".

(** An identifier (a word-start character, then word characters, as many as
    there are) at the start of [s]: the identifier and what follows. *)
Definition matchIdentifier (s : string) : option (string * string) :=
  match s with
  | String c t =>
      if isWordStart c then
        let (w, r) := spanWhile isWord t in Some (String c w, r)
      else None
  | EmptyString => None
  end.

(** The test of [addVariable]: the whole of [s] is an identifier. *)
Definition isIdentifierName (s : string) : bool :=
  match matchIdentifier s with
  | Some (_, EmptyString) => true
  | _ => false
  end.

(** The first pattern of the blur handler: an identifier, an opening
    parenthesis, an identifier and a closing parenthesis, and nothing else.
    The result holds the two identifiers. *)
Definition simpleMatch (input : string) : option (string * string) :=
  match matchIdentifier input with
  | Some (name, String "(" r) =>
      match matchIdentifier r with
      | Some (var, String ")" EmptyString) => Some (name, var)
      | _ => None
      end
  | _ => None
  end.

(** The second pattern of the blur handler: an identifier between
    parentheses, anywhere in the input. The result is the identifier of the
    leftmost match. *)
Fixpoint varMatch (input : string) : option string :=
  match input with
  | EmptyString => None
  | String c t =>
      let here :=
        if Ascii.eqb c "(" then
          match matchIdentifier t with
          | Some (var, String ")" _) => Some var
          | _ => None
          end
        else None in
      match here with
      | Some var => Some var
      | None => varMatch t
      end
  end.

(** The pattern of the blur handler's [replace]: an opening parenthesis, one
    or more characters other than a closing parenthesis, and a closing
    parenthesis; replaced by a star between parentheses. *)
Definition parenthesesPattern (s : string) : option (nat * string) :=
  match s with
  | String "(" t =>
      match spanInner t with
      | (String c inner, String ")" _) =>
          Some (S (S (String.length (String c inner))), "(*)")
      | _ => None
      end
  | _ => None
  end.

(** [{ ...f, [field]: value }], for the fields the component updates. *)
Inductive FnUpdate :=
| FName (value : string)
| FVisible (value : bool)
| FExpr (value : string)
| FDerivative (value : string)
| FDependentVar (value : string)
| FIndependentVar (value : string).

Definition applyFnUpdate (u : FnUpdate) (f : Fn.t) : Fn.t :=
  match u with
  | FName v =>
      Fn.mk (Fn.id f) (Fn.expr f) (Fn.derivative f) (Fn.color f) (Fn.visible f)
        v (Fn.independentVar f) (Fn.dependentVar f)
  | FVisible v =>
      Fn.mk (Fn.id f) (Fn.expr f) (Fn.derivative f) (Fn.color f) v
        (Fn.name f) (Fn.independentVar f) (Fn.dependentVar f)
  | FExpr v =>
      Fn.mk (Fn.id f) v (Fn.derivative f) (Fn.color f) (Fn.visible f)
        (Fn.name f) (Fn.independentVar f) (Fn.dependentVar f)
  | FDerivative v =>
      Fn.mk (Fn.id f) (Fn.expr f) v (Fn.color f) (Fn.visible f)
        (Fn.name f) (Fn.independentVar f) (Fn.dependentVar f)
  | FDependentVar v =>
      Fn.mk (Fn.id f) (Fn.expr f) (Fn.derivative f) (Fn.color f) (Fn.visible f)
        (Fn.name f) (Fn.independentVar f) v
  | FIndependentVar v =>
      Fn.mk (Fn.id f) (Fn.expr f) (Fn.derivative f) (Fn.color f) (Fn.visible f)
        (Fn.name f) v (Fn.dependentVar f)
  end.

(** The fields of a variable that [updateVariable] is called for. *)
Inductive VarField := VValue | VMin | VMax | VStep.

Definition applyVarUpdate (field : VarField) (v : float) (w : UiVar.t) : UiVar.t :=
  match field with
  | VValue =>
      UiVar.mk (UiVar.name w) v (UiVar.min w) (UiVar.max w) (UiVar.step w)
        (UiVar.locked w)
  | VMin =>
      UiVar.mk (UiVar.name w) (UiVar.value w) v (UiVar.max w) (UiVar.step w)
        (UiVar.locked w)
  | VMax =>
      UiVar.mk (UiVar.name w) (UiVar.value w) (UiVar.min w) v (UiVar.step w)
        (UiVar.locked w)
  | VStep =>
      UiVar.mk (UiVar.name w) (UiVar.value w) (UiVar.min w) (UiVar.max w) v
        (UiVar.locked w)
  end.

Module App.

(** The [useState] cells of the component. *)
Record t := mk {
  functions : list Fn.t;
  variables : list UiVar.t;
  xPoint : float;
  selectedFunction : nat;
  xMin : float;
  xMax : float;
  yMin : float;
  yMax : float;
  showTangent : bool;
  error : string;
  newVarName : string
}.

Definition setFunctions (v : list Fn.t) (next : t) : t :=
  {| functions := v;
       variables := variables next;
       xPoint := xPoint next;
       selectedFunction := selectedFunction next;
       xMin := xMin next;
       xMax := xMax next;
       yMin := yMin next;
       yMax := yMax next;
       showTangent := showTangent next;
       error := error next;
       newVarName := newVarName next |}.

Definition setVariables (v : list UiVar.t) (next : t) : t :=
  {| functions := functions next;
       variables := v;
       xPoint := xPoint next;
       selectedFunction := selectedFunction next;
       xMin := xMin next;
       xMax := xMax next;
       yMin := yMin next;
       yMax := yMax next;
       showTangent := showTangent next;
       error := error next;
       newVarName := newVarName next |}.

Definition setXPoint (v : float) (next : t) : t :=
  {| functions := functions next;
       variables := variables next;
       xPoint := v;
       selectedFunction := selectedFunction next;
       xMin := xMin next;
       xMax := xMax next;
       yMin := yMin next;
       yMax := yMax next;
       showTangent := showTangent next;
       error := error next;
       newVarName := newVarName next |}.

Definition setSelectedFunction (v : nat) (next : t) : t :=
  {| functions := functions next;
       variables := variables next;
       xPoint := xPoint next;
       selectedFunction := v;
       xMin := xMin next;
       xMax := xMax next;
       yMin := yMin next;
       yMax := yMax next;
       showTangent := showTangent next;
       error := error next;
       newVarName := newVarName next |}.

Definition setXMin (v : float) (next : t) : t :=
  {| functions := functions next;
       variables := variables next;
       xPoint := xPoint next;
       selectedFunction := selectedFunction next;
       xMin := v;
       xMax := xMax next;
       yMin := yMin next;
       yMax := yMax next;
       showTangent := showTangent next;
       error := error next;
       newVarName := newVarName next |}.

Definition setXMax (v : float) (next : t) : t :=
  {| functions := functions next;
       variables := variables next;
       xPoint := xPoint next;
       selectedFunction := selectedFunction next;
       xMin := xMin next;
       xMax := v;
       yMin := yMin next;
       yMax := yMax next;
       showTangent := showTangent next;
       error := error next;
       newVarName := newVarName next |}.

Definition setYMin (v : float) (next : t) : t :=
  {| functions := functions next;
       variables := variables next;
       xPoint := xPoint next;
       selectedFunction := selectedFunction next;
       xMin := xMin next;
       xMax := xMax next;
       yMin := v;
       yMax := yMax next;
       showTangent := showTangent next;
       error := error next;
       newVarName := newVarName next |}.

Definition setYMax (v : float) (next : t) : t :=
  {| functions := functions next;
       variables := variables next;
       xPoint := xPoint next;
       selectedFunction := selectedFunction next;
       xMin := xMin next;
       xMax := xMax next;
       yMin := yMin next;
       yMax := v;
       showTangent := showTangent next;
       error := error next;
       newVarName := newVarName next |}.

Definition setShowTangent (v : bool) (next : t) : t :=
  {| functions := functions next;
       variables := variables next;
       xPoint := xPoint next;
       selectedFunction := selectedFunction next;
       xMin := xMin next;
       xMax := xMax next;
       yMin := yMin next;
       yMax := yMax next;
       showTangent := v;
       error := error next;
       newVarName := newVarName next |}.

Definition setError (v : string) (next : t) : t :=
  {| functions := functions next;
       variables := variables next;
       xPoint := xPoint next;
       selectedFunction := selectedFunction next;
       xMin := xMin next;
       xMax := xMax next;
       yMin := yMin next;
       yMax := yMax next;
       showTangent := showTangent next;
       error := v;
       newVarName := newVarName next |}.

Definition setNewVarName (v : string) (next : t) : t :=
  {| functions := functions next;
       variables := variables next;
       xPoint := xPoint next;
       selectedFunction := selectedFunction next;
       xMin := xMin next;
       xMax := xMax next;
       yMin := yMin next;
       yMax := yMax next;
       showTangent := showTangent next;
       error := error next;
       newVarName := v |}.

(** Canvas dimensions. *)
Definition width : float := 900.
Definition height : float := 500.
Definition padding : float := 60.

Definition colors : list string :=
  [ "#3b82f6"; "#ef4444"; "#10b981"; "#f59e0b"; "#8b5cf6"; "#ec4899";
    "#06b6d4"; "#14b8a6" ].

(** The state of the first render. *)
Definition initial : t :=
  {| functions :=
       [ Fn.mk 1 "a*sin(b*x) + c" "" "#3b82f6" true "Function 1" "x" "f" ];
     variables :=
       [ UiVar.mk "pi" Math_PI 0 (2 * Math_PI) 0.01 (Some true);
         UiVar.mk "a" 1 (-5) 5 0.1 None;
         UiVar.mk "b" 1 (-5) 5 0.1 None;
         UiVar.mk "c" 0 (-5) 5 0.1 None ];
     xPoint := (Math_PI / 4)%float;
     selectedFunction := 1;
     xMin := (- Math_PI)%float;
     xMax := (3 * Math_PI)%float;
     yMin := (-3)%float;
     yMax := 3%float;
     showTangent := true;
     error := "";
     newVarName := "" |}.

(** ** Functions *)

(** ['fghijklmnpqrstuvw'.split('')] *)
Definition letters : list string :=
  [ "f"; "g"; "h"; "i"; "j"; "k"; "l"; "m"; "n"; "p"; "q"; "r"; "s"; "t";
    "u"; "v"; "w" ].

(** [Math.max(...functions.map(f => f.id)) + 1]. The ids are the counts this
    expression produces, starting from 1; the list is never empty (the
    maximum of no number, [-Infinity], is not modelled). *)
Definition newId (s : t) : nat :=
  S (fold_right Nat.max 0%nat (map Fn.id (functions s))).

Definition usedLetters (s : t) : list string :=
  map (fun f => orDefault (Fn.dependentVar f) "f") (functions s).

Definition nextLetter (s : t) : string :=
  match find (fun l => negb (existsb (String.eqb l) (usedLetters s))) letters with
  | Some l => l
  | None => "f"
  end.

Definition addFunction (s : t) : t :=
  setFunctions
    (functions s ++
     [ Fn.mk (newId s) "x^2" ""
         (nth (List.length (functions s) mod List.length colors) colors "")
         true ("Function " +:+ decimalOfZ (Z.of_nat (newId s))) "x"
         (nextLetter s) ])
    s.

Definition updateFunction (s : t) (id : nat) (u : FnUpdate) (next : t) : t :=
  setError ""
    (setFunctions
       (map (fun f => if (Fn.id f =? id)%nat then applyFnUpdate u f else f)
          (functions s))
       next).

(** When no function has another id, [functions.find(...)] is [undefined]
    and reading its [id] throws. *)
Definition deleteFunction (s : t) (id : nat) : Outcome t :=
  if (1 <? List.length (functions s))%nat then
    let next :=
      setFunctions (List.filter (fun f => negb (Fn.id f =? id)%nat) (functions s)) s in
    if (selectedFunction s =? id)%nat then
      match find (fun f => negb (Fn.id f =? id)%nat) (functions s) with
      | Some f => Value (setSelectedFunction (Fn.id f) next)
      | None => Thrown
      end
    else Value next
  else Value s.

(** The [onBlur] handler of the left side of the function [id]. *)
Definition leftSideBlur (s : t) (id : nat) (value : string) : t :=
  let input := trim value in
  match simpleMatch input with
  | Some (name, var) =>
      updateFunction s id (FIndependentVar var)
        (updateFunction s id (FDependentVar name) s)
  | None =>
      match varMatch input with
      | Some var =>
          updateFunction s id (FIndependentVar var)
            (updateFunction s id
               (FDependentVar (replaceAll parenthesesPattern 0 input)) s)
      | None => s
      end
  end.

(** ** Variables *)

Definition reserved : list string := [ "pi"; "e"; "PI"; "E"; "x" ].

Definition addVariable (s : t) : t :=
  if String.eqb (newVarName s) "" then
    setError "Please enter a variable name" s
  else if existsb (String.eqb (toLowerCase (newVarName s))) reserved then
    setError ("'" +:+ newVarName s +:+ "' is a reserved constant or variable") s
  else if existsb (fun v => String.eqb (UiVar.name v) (newVarName s)) (variables s)
  then setError "Variable already exists" s
  else if negb (isIdentifierName (newVarName s)) then
    setError "Invalid variable name (use letters, numbers, underscore)" s
  else
    setError ""
      (setNewVarName ""
         (setVariables
            (variables s ++ [ UiVar.mk (newVarName s) 1 (-10) 10 0.1 (Some false) ])
            s)).

Definition deleteVariable (s : t) (name : string) : t :=
  setVariables
    (List.filter (fun v => negb (String.eqb (UiVar.name v) name)) (variables s)) s.

Section Handlers.

(** The host's [parseFloat]. *)
Variable parseFloat : string -> float.

Definition updateVariable (s : t) (name : string) (field : VarField)
  (value : string) : t :=
  setVariables
    (map (fun v =>
            if String.eqb (UiVar.name v) name
            then applyVarUpdate field (parseFloat value) v else v)
       (variables s))
    s.

(** The events of the component, each with the handler it runs. *)
Inductive Event :=
| ClickAddFunction
| ChangeName (id : nat) (value : string)
| ChangeVisible (id : nat) (checked : bool)
| ClickSelect (id : nat)
| ClickDeleteFunction (id : nat)
| BlurLeftSide (id : nat) (value : string)
| ChangeExpr (id : nat) (value : string)
| ChangeDerivative (id : nat) (value : string)
| ClickDeleteVariable (name : string)
| ChangeVariable (name : string) (field : VarField) (value : string)
| ChangeNewVarName (value : string)
| ClickAddVariable
| ChangeXMin (value : string)
| ChangeXMax (value : string)
| ChangeYMin (value : string)
| ChangeYMax (value : string)
| ChangeShowTangent (checked : bool)
| ChangeXPoint (value : string).

Definition handle (s : t) (e : Event) : Outcome t :=
  match e with
  | ClickAddFunction => Value (addFunction s)
  | ChangeName id v => Value (updateFunction s id (FName v) s)
  | ChangeVisible id b => Value (updateFunction s id (FVisible b) s)
  | ClickSelect id => Value (setSelectedFunction id s)
  | ClickDeleteFunction id => deleteFunction s id
  | BlurLeftSide id v => Value (leftSideBlur s id v)
  | ChangeExpr id v => Value (updateFunction s id (FExpr v) s)
  | ChangeDerivative id v => Value (updateFunction s id (FDerivative v) s)
  | ClickDeleteVariable name => Value (deleteVariable s name)
  | ChangeVariable name field v => Value (updateVariable s name field v)
  | ChangeNewVarName v => Value (setNewVarName v s)
  | ClickAddVariable => Value (addVariable s)
  | ChangeXMin v => Value (setXMin (parseFloat v) s)
  | ChangeXMax v => Value (setXMax (parseFloat v) s)
  | ChangeYMin v => Value (setYMin (parseFloat v) s)
  | ChangeYMax v => Value (setYMax (parseFloat v) s)
  | ChangeShowTangent b => Value (setShowTangent b s)
  | ChangeXPoint v => Value (setXPoint (parseFloat v) s)
  end.

(** The events a render offers. The controls of a function belong to a
    function of the list, its delete button is there when the list has more
    than one function; the controls of a variable belong to a variable of the
    list that is not locked. *)
Definition hasFunction (s : t) (id : nat) : bool :=
  existsb (fun f => (Fn.id f =? id)%nat) (functions s).

Definition hasUnlocked (s : t) (name : string) : bool :=
  existsb (fun v => String.eqb (UiVar.name v) name && negb (UiVar.isLocked v))
    (variables s).

Definition offered (s : t) (e : Event) : bool :=
  match e with
  | ChangeName id _ | ChangeVisible id _ | ClickSelect id
  | BlurLeftSide id _ | ChangeExpr id _ | ChangeDerivative id _ =>
      hasFunction s id
  | ClickDeleteFunction id =>
      hasFunction s id && (1 <? List.length (functions s))%nat
  | ClickDeleteVariable name | ChangeVariable name _ _ => hasUnlocked s name
  | _ => true
  end.

(** The states the component can be in: the first one, and the ones a handler
    that returns leaves. *)
Inductive reachable : t -> Prop :=
| reachable_initial : reachable initial
| reachable_event s e s' :
    reachable s -> offered s e = true -> handle s e = Value s' -> reachable s'.

End Handlers.

(** ** Rendering *)

Section Rendering.

Variable engine : Context -> string -> option JsVal.

(** Fuel for the nested calls of the evaluator. *)
Variable depth : nat.

Definition evaluateExpression (s : t) (expr : string) (xValue : float)
  (independentVar : string) (currentFuncId : option nat) : Outcome (option float) :=
  evaluateExpressionUtil engine depth expr xValue independentVar currentFuncId
    (map (fun f => Some (Fn.toFunctionDef f)) (functions s))
    (map UiVar.toVariable (variables s)).

Definition evaluateExpressionSimple (s : t) (expr : string) (xValue : float)
  (independentVar : string) : Outcome (option float) :=
  evaluateExpressionSimpleUtil engine expr xValue independentVar
    (map UiVar.toVariable (variables s)).

Definition numericalDerivative (s : t) (expr : string) (xValue : float)
  (independentVar : string) (currentFuncId : option nat) (h : float)
  : Outcome (option float) :=
  numericalDerivativeUtil engine depth expr xValue independentVar currentFuncId
    (map (fun f => Some (Fn.toFunctionDef f)) (functions s))
    (map UiVar.toVariable (variables s)) h.

Definition xScale (s : t) : float := ((width - 2 * padding) / (xMax s - xMin s))%float.
Definition yScale (s : t) : float := ((height - 2 * padding) / (yMax s - yMin s))%float.

Definition toCanvasX (s : t) (x : float) : float :=
  (padding + (x - xMin s) * xScale s)%float.
Definition toCanvasY (s : t) (y : float) : float :=
  (height - padding - (y - yMin s) * yScale s)%float.

(** [`${toCanvasX(x)},${toCanvasY(y)}`] *)
Definition point (s : t) (x y : float) : string :=
  numberToString (toCanvasX s x) +:+ "," +:+ numberToString (toCanvasY s y).

(** The [for] loop of [generatePoints], from [x] on; [fuel] bounds the number
    of its iterations. *)
Fixpoint generatePointsFrom (fuel : nat) (s : t) (expr : string)
  (independentVar : string) (funcId : option nat) (step x : float)
  (points : list string) : Outcome (list string) :=
  match fuel with
  | O => OutOfFuel
  | S fuel' =>
      if (x <=? xMax s)%float then
        y ← evaluateExpression s expr x independentVar funcId;
        let points' :=
          match y with
          | Some y =>
              if (yMin s <=? y)%float && (y <=? yMax s)%float
              then (points ++ [point s x y])%list
              else if (0 <? List.length points)%nat then (points ++ ["M"])%list else points
          | None =>
              if (0 <? List.length points)%nat then (points ++ ["M"])%list else points
          end in
        generatePointsFrom fuel' s expr independentVar funcId step
          (x + step)%float points'
      else Value points
  end.

Definition generatePoints (fuel : nat) (s : t) (expr : string)
  (independentVar : string) (funcId : option nat) : Outcome (list string) :=
  let step := ((xMax s - xMin s) / 500)%float in
  generatePointsFrom fuel s expr independentVar funcId step (xMin s) [].

(** The [for] loop of [getTangentPoints]. *)
Fixpoint tangentPointsFrom (fuel : nat) (s : t) (slope y0 x : float)
  (points : list string) : Outcome (list string) :=
  match fuel with
  | O => OutOfFuel
  | S fuel' =>
      if (x <=? xMax s)%float then
        let y := (slope * (x - xPoint s) + y0)%float in
        let points' :=
          if (yMin s <=? y)%float && (y <=? yMax s)%float
          then (points ++ [point s x y])%list else points in
        tangentPointsFrom fuel' s slope y0 (x + (xMax s - xMin s) / 100)%float
          points'
      else Value points
  end.

(** The slope of the tangent: the derivative the user gave when there is one,
    the numerical derivative otherwise. *)
Definition tangentSlope (s : t) (func : Fn.t) (independentVar : string)
  : Outcome (option float) :=
  if negb (String.eqb (Fn.derivative func) "")
     && negb (String.eqb (trim (Fn.derivative func)) "")
  then evaluateExpression s (Fn.derivative func) (xPoint s) independentVar
         (Some (Fn.id func))
  else numericalDerivative s (Fn.expr func) (xPoint s) independentVar
         (Some (Fn.id func)) 0.0001.

Definition getTangentPoints (fuel : nat) (s : t) (func : Fn.t)
  : Outcome (list string) :=
  let independentVar := orDefault (Fn.independentVar func) "x" in
  y0 ← evaluateExpression s (Fn.expr func) (xPoint s) independentVar
         (Some (Fn.id func));
  match y0 with
  | None => Value []
  | Some y0 =>
      slope ← tangentSlope s func independentVar;
      match slope with
      | None => Value []
      | Some slope => tangentPointsFrom fuel s slope y0 (xMin s) []
      end
  end.

End Rendering.

End App.

(** ** Reading the normalizer's output *)

(** Every [e] that the lookahead lets through is in upper case. *)
Fixpoint eNormal (s : string) : bool :=
  match s with
  | EmptyString => true
  | String c t =>
      (negb (isChar "e" "E" c && negb (blocksE t)) || Ascii.eqb c "E")
      && eNormal t
  end.

(** A text none of the seven rules applies to: no [^]; no digit followed at
    once by a letter or by [(]; no [)] followed at once by a digit or by [(];
    every [pi], in any case, spelled [PI]; every [e] that no letter other
    than [e] follows spelled [E]. *)
Definition isNormalized (s : string) : bool :=
  negb (hasChar "^" s)
  && negb (adjacent digitLetter s)
  && negb (adjacent closeDigit s)
  && negb (adjacent digitOpen s)
  && negb (adjacent closeOpen s)
  && negb (adjacent piChanges s)
  && eNormal s.

(** ** Reading the context builder *)

(** The names of the entries [buildVariableContext] accepts, in order. *)
Fixpoint acceptedNames (variables : list Var.t) : list string :=
  match variables with
  | [] => []
  | variable :: rest =>
      match Var.name variable, Var.value variable with
      | JStr name, JNum _ => name :: acceptedNames rest
      | _, _ => acceptedNames rest
      end
  end.

(** ** Reading the composition resolver *)

(** The pattern of [funcName] matches somewhere in [s]. *)
Fixpoint hasCall (funcName s : string) : bool :=
  match s with
  | EmptyString => false
  | String _ t =>
      match matchCall funcName s with
      | Some _ => true
      | None => hasCall funcName t
      end
  end.

(** [func] takes part in the resolution of [expr]: it is an entry that
    [functions.forEach] does not skip, and its pattern matches in [expr]. *)
Definition resolves (currentFuncId : option nat) (expr : string)
  (func : option FunctionDef.t) : bool :=
  match func with
  | None => false
  | Some func =>
      negb (bool_decide (Some (FunctionDef.id func) = currentFuncId)
            || negb (FunctionDef.visible func))
      && hasCall (orDefault (FunctionDef.dependentVar func) "f") expr
  end.

(** ** Reading expressions *)


(** ** Reading the application *)

(** What every handler keeps of the function list: it is not empty, the ids
    are pairwise distinct, and the selected function is one of the list. *)
Definition functionsInvariant (s : App.t) : Prop :=
  App.functions s <> [] /\
  List.NoDup (map Fn.id (App.functions s)) /\
  In (App.selectedFunction s) (map Fn.id (App.functions s)).

(** The context [buildVariableContext] makes of the variables of a state. *)
Definition variableContext (s : App.t) : Context :=
  buildVariableContext (map UiVar.toVariable (App.variables s)).

(** The constant of the first render. *)
Definition piVariable : UiVar.t :=
  UiVar.mk "pi" Math_PI 0 (2 * Math_PI) 0.01 (Some true).

(** What every handler keeps of the variable list: the names are pairwise
    distinct, the constant is there, and nothing else is locked. *)
Definition variablesInvariant (s : App.t) : Prop :=
  List.NoDup (map UiVar.name (App.variables s)) /\
  In piVariable (App.variables s) /\
  forall v, In v (App.variables s) -> UiVar.isLocked v = true -> v = piVariable.

(** The field of a variable that the context reads. *)
Definition isValueField (field : VarField) : bool :=
  match field with
  | VValue => true
  | _ => false
  end.

(** * Properties

    ** The model on small inputs *)

Example preprocess_implicit_multiplication :
  preprocessExpression "2pi + 3x" = "2*PI + 3*x".
Proof. reflexivity. Qed.

Example preprocess_parentheses :
  preprocessExpression "3(x+1)(x-1)2^e" = "3*(x+1)*(x-1)*2**E".
Proof. reflexivity. Qed.

Example preprocess_e_lookahead :
  preprocessExpression "exp(e)+epi+pie" = "exp(E)+ePI+PIE".
Proof. reflexivity. Qed.

Example numberToString_examples :
  map numberToString
    [ 2.682941969615793; 0.1; 100; -1.5; 0.000001; 1e-7; 1e21;
      123456789012345680000; 5e-324; 1.7976931348623157e308 ]%float
  = [ "2.682941969615793"; "0.1"; "100"; "-1.5"; "0.000001"; "1e-7"; "1e+21";
      "123456789012345680000"; "5e-324"; "1.7976931348623157e+308" ].
Proof. vm_compute. reflexivity. Qed.

Example matchCall_examples :
  matchCall "f" "f(x)+1" = Some ("f(x)", "x")
  /\ matchCall "f" "f()+1" = None
  /\ matchCall "f" "f(x+1" = None
  /\ matchCall "g" "g(f(x)+1)" = Some ("g(f(x)", "f(x").
Proof. repeat split. Qed.

Example parseExpression_examples :
  parseExpression "2*PI + 3*x"
  = Some (EBin Add (EBin Mul (ENum 2) (EVar "PI")) (EBin Mul (ENum 3) (EVar "x")))
  /\ parseExpression "2**3**2"
     = Some (EBin Pow (ENum 2) (EBin Pow (ENum 3) (ENum 2)))
  /\ parseExpression "-2**2" = None
  /\ parseExpression "2--1" = None
  /\ parseExpression "1/(" = None
  /\ parseExpression "min(1, .5)"
     = Some (ECall "min" [ENum 1; ENum 0.5]).
Proof. repeat split; vm_compute; reflexivity. Qed.

(** Composition on [g(x) = x*x]: a call is replaced by the text of its value;
    a call whose argument holds parentheses is not resolved; the evaluation of
    a call needs fuel for two nested calls. *)
Example evaluateExpression_examples (math : MathFn -> list float -> float) :
  let g := FunctionDef.mk 2 "x*x" true "x" "g" in
  evaluateExpression (jsEngine math) 2 "g(x+1) - g(2)/4" 3 "x" None [Some g] []
  = Value (Some 15%float)
  /\ evaluateExpression (jsEngine math) 2 "g((x+1))" 3 "x" None [Some g] []
     = Value None
  /\ evaluateExpression (jsEngine math) 2 "g(x)" 3 "x" (Some 2%nat) [Some g] []
     = Value None
  /\ evaluateExpression (jsEngine math) 1 "g(x)" 3 "x" None [Some g] []
     = OutOfFuel.
Proof. repeat split; vm_compute; reflexivity. Qed.
(** ** The normalizer *)

Lemma string_pair_ind (P : string -> Prop) :
  P EmptyString ->
  (forall a, P (String a EmptyString)) ->
  (forall a b t, P t -> P (String b t) -> P (String a (String b t))) ->
  forall s, P s.
Proof.
  intros H0 H1 H2 s.
  assert (H : P s /\ forall a, P (String a s)).
  { induction s as [|b t [IHt IHc]]; split; auto. }
  apply H.
Qed.

Lemma replaceAll_pair_cons R mk a b t :
  replaceAll (pairPattern R mk) 0 (String a (String b t)) =
  if R a b then mk a b +:+ replaceAll (pairPattern R mk) 0 t
  else String a (replaceAll (pairPattern R mk) 0 (String b t)).
Proof. simpl. destruct (R a b); reflexivity. Qed.

Lemma replaceAll_caret_cons c t :
  replaceAll caretPattern 0 (String c t) =
  if Ascii.eqb c "^" then "**" +:+ replaceAll caretPattern 0 t
  else String c (replaceAll caretPattern 0 t).
Proof. simpl. destruct (Ascii.eqb c "^"); reflexivity. Qed.

Lemma replaceAll_e_cons c t :
  replaceAll ePattern 0 (String c t) =
  String (if isChar "e" "E" c && negb (blocksE t) then "E"%char else c)
    (replaceAll ePattern 0 t).
Proof.
  cbn [replaceAll ePattern].
  destruct (isChar "e" "E" c && negb (blocksE t)); reflexivity.
Qed.

(** *** Rules that are the identity on their normal forms *)

Lemma replaceAll_pair_fixed R mk s :
  adjacent (changes R mk) s = false ->
  replaceAll (pairPattern R mk) 0 s = s.
Proof.
  induction s as [| a | a b t IHt IHbt] using string_pair_ind; intros H;
    try reflexivity.
  rewrite replaceAll_pair_cons.
  cbn [adjacent startsWith] in H.
  apply orb_false_iff in H as [Hab H].
  destruct (R a b) eqn:HR.
  - unfold changes in Hab. rewrite HR in Hab. cbn in Hab.
    apply negb_false_iff, String.eqb_eq in Hab. rewrite Hab. cbn.
    rewrite IHt; [reflexivity|].
    cbn [adjacent] in H. apply orb_false_iff in H. apply H.
  - rewrite IHbt by exact H. reflexivity.
Qed.

Lemma replaceAll_caret_fixed s :
  hasChar "^" s = false -> replaceAll caretPattern 0 s = s.
Proof.
  induction s as [|c t IH]; intros H; [reflexivity|].
  rewrite replaceAll_caret_cons. cbn [hasChar] in H.
  apply orb_false_iff in H as [Hc Ht]. rewrite Hc, IH by exact Ht. reflexivity.
Qed.

(** *** Facts on characters *)

Ltac split_bool :=
  repeat match goal with
  | H : (_ || _) = true |- _ => apply orb_true_iff in H; destruct H as [H|H]
  | H : (_ && _) = true |- _ => apply andb_true_iff in H; destruct H as [? H]
  | H : Ascii.eqb _ _ = true |- _ => apply Ascii.eqb_eq in H; subst
  end.

Lemma recased_class a a' :
  recased a a' = true ->
  isDigit a' = isDigit a /\ isLetter a' = isLetter a
  /\ Ascii.eqb a' ")" = Ascii.eqb a ")" /\ Ascii.eqb a' "(" = Ascii.eqb a "("
  /\ Ascii.eqb a' "^" = Ascii.eqb a "^"
  /\ isChar "p" "P" a' = isChar "p" "P" a
  /\ isChar "i" "I" a' = isChar "i" "I" a
  /\ isChar "e" "E" a' = isChar "e" "E" a.
Proof.
  unfold recased, isChar. intros H. split_bool; repeat split; reflexivity.
Qed.

Lemma recasedE_recased a a' : recasedE a a' = true -> recased a a' = true.
Proof.
  unfold recasedE, recased. intros H.
  apply orb_true_iff in H as [H|H]; rewrite H; cbn;
    rewrite ?orb_true_r; reflexivity.
Qed.

Lemma recased_refl a : recased a a = true.
Proof. unfold recased. rewrite Ascii.eqb_refl. reflexivity. Qed.

Lemma recasedE_refl a : recasedE a a = true.
Proof. unfold recasedE. rewrite Ascii.eqb_refl. reflexivity. Qed.


Lemma class_digitLetter : classPattern digitLetter.
Proof.
  intros a a' b b' Ha Hb. unfold digitLetter.
  apply recased_class in Ha as (-> & _). apply recased_class in Hb as (_ & -> & _).
  reflexivity.
Qed.

Lemma class_closeDigit : classPattern closeDigit.
Proof.
  intros a a' b b' Ha Hb. unfold closeDigit.
  apply recased_class in Ha as (_ & _ & -> & _). apply recased_class in Hb as (-> & _).
  reflexivity.
Qed.

Lemma class_digitOpen : classPattern digitOpen.
Proof.
  intros a a' b b' Ha Hb. unfold digitOpen.
  apply recased_class in Ha as (-> & _).
  apply recased_class in Hb as (_ & _ & _ & -> & _).
  reflexivity.
Qed.

Lemma class_closeOpen : classPattern closeOpen.
Proof.
  intros a a' b b' Ha Hb. unfold closeOpen.
  apply recased_class in Ha as (_ & _ & -> & _).
  apply recased_class in Hb as (_ & _ & _ & -> & _).
  reflexivity.
Qed.

Lemma class_piPair : classPattern piPair.
Proof.
  intros a a' b b' Ha Hb. unfold piPair.
  apply recased_class in Ha as (_ & _ & _ & _ & _ & -> & _).
  apply recased_class in Hb as (_ & _ & _ & _ & _ & _ & -> & _).
  reflexivity.
Qed.



Lemma isDigit_isLetter a : isDigit a = true -> isLetter a = false.
Proof.
  unfold isDigit, isLetter, isLower, isUpper. intros H.
  apply andb_true_iff in H as [H1 H2].
  apply Nat.leb_le in H1, H2.
  apply orb_false_iff; split; apply andb_false_iff; left; apply Nat.leb_gt; lia.
Qed.

Lemma starFree_digitLetter : starFree digitLetter.
Proof.
  split; intros c; unfold digitLetter; cbn; rewrite ?andb_false_r; reflexivity.
Qed.
Lemma starFree_closeDigit : starFree closeDigit.
Proof.
  split; intros c; unfold closeDigit; cbn; rewrite ?andb_false_r; reflexivity.
Qed.
Lemma starFree_digitOpen : starFree digitOpen.
Proof.
  split; intros c; unfold digitOpen; cbn; rewrite ?andb_false_r; reflexivity.
Qed.
Lemma starFree_closeOpen : starFree closeOpen.
Proof.
  split; intros c; unfold closeOpen; cbn; rewrite ?andb_false_r; reflexivity.
Qed.
Lemma starFree_piPair : starFree piPair.
Proof.
  split; intros c; unfold piPair; cbn; rewrite ?andb_false_r; reflexivity.
Qed.

Lemma apart_digitLetter : apart digitLetter.
Proof.
  intros a b c H. unfold digitLetter in *.
  apply andb_true_iff in H as [_ H].
  destruct (isDigit b) eqn:Hb; [|reflexivity].
  apply isDigit_isLetter in Hb. congruence.
Qed.
Lemma apart_closeDigit : apart closeDigit.
Proof.
  intros a b c H. unfold closeDigit in *.
  apply andb_true_iff in H as [_ H].
  destruct (Ascii.eqb_spec b ")") as [->|]; [discriminate H|reflexivity].
Qed.
Lemma apart_digitOpen : apart digitOpen.
Proof.
  intros a b c H. unfold digitOpen in *.
  apply andb_true_iff in H as [_ H]. apply Ascii.eqb_eq in H. subst b.
  reflexivity.
Qed.
Lemma apart_closeOpen : apart closeOpen.
Proof.
  intros a b c H. unfold closeOpen in *.
  apply andb_true_iff in H as [_ H]. apply Ascii.eqb_eq in H. subst b.
  reflexivity.
Qed.

(** *** Each rule rewrites its input *)

Lemma rewrites_mono (keep keep' : ascii -> ascii -> bool) s t :
  (forall a a', keep a a' = true -> keep' a a' = true) ->
  Rewrites keep s t -> Rewrites keep' s t.
Proof. intros Hk H. induction H; constructor; auto. Qed.

Lemma rewrites_star keep R s :
  (forall a, keep a a = true) ->
  Rewrites keep s (replaceAll (pairPattern R star) 0 s).
Proof.
  intros Hk.
  induction s as [| a | a b t IHt IHbt] using string_pair_ind.
  - constructor.
  - cbn. apply rw_char; [apply Hk | constructor].
  - rewrite replaceAll_pair_cons. destruct (R a b).
    + cbn. apply rw_char; [apply Hk|]. apply rw_star.
      apply rw_char; [apply Hk | exact IHt].
    + apply rw_char; [apply Hk | exact IHbt].
Qed.

Lemma rewrites_pi s :
  Rewrites recased s (replaceAll (pairPattern piPair (fun _ _ => "PI")) 0 s).
Proof.
  induction s as [| a | a b t IHt IHbt] using string_pair_ind.
  - constructor.
  - cbn. apply rw_char; [apply recased_refl | constructor].
  - rewrite replaceAll_pair_cons. destruct (piPair a b) eqn:Hab.
    + unfold piPair in Hab. apply andb_true_iff in Hab as [Ha Hb].
      cbn. apply rw_char.
      { unfold recased. rewrite Ha. cbn. rewrite ?orb_true_r. reflexivity. }
      apply rw_char; [|exact IHt].
      unfold recased. rewrite Hb. cbn. rewrite ?orb_true_r. reflexivity.
    + apply rw_char; [apply recased_refl | exact IHbt].
Qed.

Lemma rewrites_e s : Rewrites recasedE s (replaceAll ePattern 0 s).
Proof.
  induction s as [|c t IH]; [constructor|].
  rewrite replaceAll_e_cons. apply rw_char; [|exact IH].
  destruct (isChar "e" "E" c) eqn:Hc; cbn.
  - destruct (blocksE t); cbn; [apply recasedE_refl|].
    unfold recasedE. rewrite Hc. cbn. apply orb_true_r.
  - apply recasedE_refl.
Qed.

(** *** Normal forms survive the later rules *)

Lemma rewrites_head keep s t :
  Rewrites keep s t ->
  match t with
  | EmptyString => True
  | String b' _ =>
      b' = "*"%char \/ exists b s', s = String b s' /\ keep b b' = true
  end.
Proof. intros H. destruct H; auto. right. eauto. Qed.

Lemma adjacent_rewrites keep R s t :
  starFree R ->
  (forall a a' b b',
     keep a a' = true -> keep b b' = true -> R a' b' = true -> R a b = true) ->
  Rewrites keep s t -> adjacent R s = false -> adjacent R t = false.
Proof.
  intros [Hs1 Hs2] Hk H. induction H as [| a a' s t Ha H IH | s t H IH]; intros Hadj.
  - reflexivity.
  - cbn [adjacent] in *. apply orb_false_iff in Hadj as [Hh Hadj].
    apply orb_false_iff. split; [|auto].
    apply rewrites_head in H. destruct t as [|b' t']; [reflexivity|]. cbn.
    destruct H as [-> | (b & s' & -> & Hb)]; [apply Hs1|].
    cbn in Hh. destruct (R a' b') eqn:HR; [|reflexivity].
    rewrite (Hk _ _ _ _ Ha Hb HR) in Hh. discriminate.
  - cbn [adjacent]. apply orb_false_iff. split; [|auto].
    destruct t; [reflexivity|]. cbn. apply Hs2.
Qed.

Lemma adjacent_rewrites_class R s t :
  starFree R -> classPattern R ->
  Rewrites recased s t -> adjacent R s = false -> adjacent R t = false.
Proof.
  intros Hs Hc. apply adjacent_rewrites; [exact Hs|].
  intros a a' b b' Ha Hb HR. rewrite <- (Hc _ _ _ _ Ha Hb). exact HR.
Qed.

Lemma hasCaret_rewrites s t :
  Rewrites recased s t -> hasChar "^" s = false -> hasChar "^" t = false.
Proof.
  intros H. induction H as [| a a' s t Ha H IH | s t H IH]; intros Hc.
  - reflexivity.
  - cbn [hasChar] in *. apply orb_false_iff in Hc as [Hc1 Hc2].
    apply recased_class in Ha as (_ & _ & _ & _ & -> & _).
    rewrite Hc1. cbn. auto.
  - cbn. auto.
Qed.

(** *** Each rule reaches its normal form *)

Lemma hasCaret_caret s : hasChar "^" (replaceAll caretPattern 0 s) = false.
Proof.
  induction s as [|c t IH]; [reflexivity|].
  rewrite replaceAll_caret_cons. destruct (Ascii.eqb c "^") eqn:Hc.
  - cbn. exact IH.
  - cbn [hasChar]. rewrite Hc. exact IH.
Qed.

Lemma star_append a b s :
  star a b +:+ s = String a (String "*" (String b s)).
Proof. reflexivity. Qed.

Lemma startsWith_star P R s :
  startsWith P (replaceAll (pairPattern R star) 0 s) = startsWith P s.
Proof.
  destruct s as [|a [|b t]]; try reflexivity.
  rewrite replaceAll_pair_cons. destruct (R a b); reflexivity.
Qed.

Lemma adjacent_star R s :
  starFree R -> apart R ->
  adjacent R (replaceAll (pairPattern R star) 0 s) = false.
Proof.
  intros [Hs1 Hs2] Hap.
  induction s as [| a | a b t IHt IHbt] using string_pair_ind; try reflexivity.
  rewrite replaceAll_pair_cons. destruct (R a b) eqn:Hab.
  - rewrite star_append. cbn [adjacent startsWith].
    rewrite Hs1, Hs2, IHt, startsWith_star. cbn.
    destruct t as [|c t']; [reflexivity|]. cbn. rewrite (Hap _ _ c Hab).
    reflexivity.
  - cbn [adjacent]. rewrite startsWith_star, IHbt. cbn. rewrite Hab. reflexivity.
Qed.

Lemma changes_star R a b : changes R star a b = R a b.
Proof.
  unfold changes.
  destruct (String.eqb_spec (star a b) (String a (String b EmptyString))) as [E|E].
  - unfold star in E. congruence.
  - apply andb_true_r.
Qed.

Lemma adjacent_ext (R R' : ascii -> ascii -> bool) s :
  (forall a b, R a b = R' a b) -> adjacent R s = adjacent R' s.
Proof.
  intros H. induction s as [|a t IH]; [reflexivity|].
  cbn. rewrite IH. destruct t; cbn; [reflexivity|]. rewrite H. reflexivity.
Qed.

Lemma replaceAll_star_fixed R s :
  adjacent R s = false -> replaceAll (pairPattern R star) 0 s = s.
Proof.
  intros H. apply replaceAll_pair_fixed.
  rewrite (adjacent_ext _ R); [exact H | apply changes_star].
Qed.


Lemma adjacent_pi s :
  adjacent piChanges (replaceAll (pairPattern piPair (fun _ _ => "PI")) 0 s) = false.
Proof.
  induction s as [| a | a b t IHt IHbt] using string_pair_ind; try reflexivity.
  rewrite replaceAll_pair_cons. destruct (piPair a b) eqn:Hab.
  - change (adjacent piChanges
              (String "P" (String "I"
                 (replaceAll (pairPattern piPair (fun _ _ => "PI")) 0 t))) = false).
    cbn [adjacent startsWith]. rewrite IHt.
    replace (piChanges "P" "I") with false by reflexivity. cbn.
    destruct (replaceAll _ 0 t); reflexivity.
  - cbn [adjacent]. rewrite IHbt, orb_false_r.
    pose proof (rewrites_head _ _ _ (rewrites_pi (String b t))) as Hh.
    destruct (replaceAll _ 0 (String b t)) as [|b' t']; [reflexivity|]. cbn.
    unfold piChanges, changes.
    destruct Hh as [-> | (b0 & s' & [= <- <-] & Hb)].
    + destruct starFree_piPair as [-> _]. reflexivity.
    + rewrite (class_piPair _ _ _ _ (recased_refl a) Hb), Hab. reflexivity.
Qed.

Lemma piChanges_recasedE a a' b b' :
  recasedE a a' = true -> recasedE b b' = true ->
  piChanges a' b' = true -> piChanges a b = true.
Proof.
  unfold recasedE. intros Ha Hb H.
  apply orb_true_iff in Ha as [Ha|Ha]; apply orb_true_iff in Hb as [Hb|Hb];
    split_bool; try exact H; try discriminate H.
  unfold piChanges, changes, piPair in H. cbn in H.
  rewrite andb_false_r in H. discriminate H.
Qed.

Lemma starFree_piChanges : starFree piChanges.
Proof.
  destruct starFree_piPair as [H1 H2].
  split; intros c; unfold piChanges, changes; rewrite ?H1, ?H2; reflexivity.
Qed.

Lemma blocksE_e t : blocksE (replaceAll ePattern 0 t) = blocksE t.
Proof.
  destruct t as [|b t]; [reflexivity|].
  rewrite replaceAll_e_cons. cbn [blocksE].
  destruct (isChar "e" "E" b) eqn:Hb; cbn [andb]; [|rewrite Hb; reflexivity].
  rewrite andb_false_r.
  destruct (negb (blocksE t)); [reflexivity|].
  rewrite Hb. apply andb_false_r.
Qed.

Lemma replaceAll_e_idem s :
  replaceAll ePattern 0 (replaceAll ePattern 0 s) = replaceAll ePattern 0 s.
Proof.
  induction s as [|c t IH]; [reflexivity|].
  rewrite !replaceAll_e_cons, IH, blocksE_e. f_equal.
  destruct (isChar "e" "E" c && negb (blocksE t)) eqn:H; [|rewrite H; reflexivity].
  apply andb_true_iff in H as [_ H]. rewrite H. reflexivity.
Qed.

(** C5: the normalizer is idempotent; none of its seven rules applies again
    to a text that has been normalized. *)
Theorem preprocessExpression_idempotent (s : string) :
  preprocessExpression (preprocessExpression s) = preprocessExpression s.
Proof.
  unfold preprocessExpression.
  set (s1 := replaceAll caretPattern 0 s).
  set (s2 := replaceAll (pairPattern digitLetter star) 0 s1).
  set (s3 := replaceAll (pairPattern closeDigit star) 0 s2).
  set (s4 := replaceAll (pairPattern digitOpen star) 0 s3).
  set (s5 := replaceAll (pairPattern closeOpen star) 0 s4).
  set (s6 := replaceAll (pairPattern piPair (fun _ _ => "PI")) 0 s5).
  set (s7 := replaceAll ePattern 0 s6).
  assert (R2 : Rewrites recased s1 s2) by apply rewrites_star, recased_refl.
  assert (R3 : Rewrites recased s2 s3) by apply rewrites_star, recased_refl.
  assert (R4 : Rewrites recased s3 s4) by apply rewrites_star, recased_refl.
  assert (R5 : Rewrites recased s4 s5) by apply rewrites_star, recased_refl.
  assert (R6 : Rewrites recased s5 s6) by apply rewrites_pi.
  assert (R7e : Rewrites recasedE s6 s7) by apply rewrites_e.
  assert (R7 : Rewrites recased s6 s7)
    by (eapply rewrites_mono; [apply recasedE_recased | exact R7e]).
  assert (N1 : hasChar "^" s7 = false).
  { do 6 (eapply hasCaret_rewrites; [eassumption|]). apply hasCaret_caret. }
  assert (N2 : adjacent digitLetter s7 = false).
  { do 5 (eapply adjacent_rewrites_class;
            [apply starFree_digitLetter | apply class_digitLetter | eassumption |]).
    apply adjacent_star; [apply starFree_digitLetter | apply apart_digitLetter]. }
  assert (N3 : adjacent closeDigit s7 = false).
  { do 4 (eapply adjacent_rewrites_class;
            [apply starFree_closeDigit | apply class_closeDigit | eassumption |]).
    apply adjacent_star; [apply starFree_closeDigit | apply apart_closeDigit]. }
  assert (N4 : adjacent digitOpen s7 = false).
  { do 3 (eapply adjacent_rewrites_class;
            [apply starFree_digitOpen | apply class_digitOpen | eassumption |]).
    apply adjacent_star; [apply starFree_digitOpen | apply apart_digitOpen]. }
  assert (N5 : adjacent closeOpen s7 = false).
  { do 2 (eapply adjacent_rewrites_class;
            [apply starFree_closeOpen | apply class_closeOpen | eassumption |]).
    apply adjacent_star; [apply starFree_closeOpen | apply apart_closeOpen]. }
  assert (N6 : adjacent piChanges s7 = false).
  { eapply adjacent_rewrites;
      [apply starFree_piChanges | apply piChanges_recasedE | exact R7e |].
    apply adjacent_pi. }
  rewrite (replaceAll_caret_fixed s7 N1).
  rewrite (replaceAll_star_fixed _ s7 N2).
  rewrite (replaceAll_star_fixed _ s7 N3).
  rewrite (replaceAll_star_fixed _ s7 N4).
  rewrite (replaceAll_star_fixed _ s7 N5).
  rewrite (replaceAll_pair_fixed _ _ s7 N6).
  apply replaceAll_e_idem.
Qed.

(** ** The context builder and the merged context *)

Lemma addVariable_skip context variable :
  isVariable variable = false -> addVariable context variable = context.
Proof.
  unfold isVariable, addVariable.
  destruct (Var.name variable), (Var.value variable); intros H;
    try reflexivity; discriminate H.
Qed.

Lemma fold_addVariable_filter variables context :
  fold_left addVariable (List.filter isVariable variables) context =
  fold_left addVariable variables context.
Proof.
  revert context. induction variables as [|v l IH]; intros context; [reflexivity|].
  cbn [List.filter]. destruct (isVariable v) eqn:Hv; cbn [fold_left].
  - apply IH.
  - rewrite (addVariable_skip _ _ Hv). apply IH.
Qed.

Lemma mergeContext_lookup varContext independentVar xValue name :
  mergeContext varContext independentVar xValue !! name =
  if String.eqb name independentVar then Some (JNum xValue)
  else match varContext !! name with
       | Some v => Some v
       | None => safeMath !! name
       end.
Proof.
  unfold mergeContext.
  destruct (String.eqb_spec name independentVar) as [->|Hne].
  - apply lookup_insert_eq.
  - rewrite lookup_insert_ne by congruence.
    rewrite lookup_union. destruct (varContext !! name), (safeMath !! name);
      reflexivity.
Qed.

Lemma fold_addVariable_lookup name variables context :
  name <> "__proto__" ->
  fold_left addVariable variables context !! name =
  match lastBinding name variables with
  | Some v => Some v
  | None => context !! name
  end.
Proof.
  intros Hname. revert context.
  induction variables as [|v l IH]; intros context; [reflexivity|].
  cbn [fold_left lastBinding]. rewrite IH.
  destruct (lastBinding name l); [reflexivity|].
  unfold bindsName, addVariable.
  destruct (Var.name v) as [| | | |n|]; try reflexivity.
  destruct (Var.value v) as [| | |x| |]; try reflexivity.
  unfold setProperty.
  destruct (String.eqb_spec n name) as [->|Hn].
  - apply String.eqb_neq in Hname. rewrite Hname. apply lookup_insert_eq.
  - destruct (String.eqb n "__proto__"); [reflexivity|].
    apply lookup_insert_ne. exact Hn.
Qed.

Lemma fold_addVariable_proto variables context :
  context !! "__proto__" = None ->
  fold_left addVariable variables context !! "__proto__" = None.
Proof.
  revert context. induction variables as [|v l IH]; intros context H; [exact H|].
  cbn [fold_left]. apply IH. unfold addVariable.
  destruct (Var.name v) as [| | | |n|]; try exact H.
  destruct (Var.value v); try exact H.
  unfold setProperty. destruct (String.eqb_spec n "__proto__") as [->|Hn]; [exact H|].
  rewrite lookup_insert_ne by exact Hn. exact H.
Qed.

(** C2, as the claim states it, fails: an entry whose value is [Infinity] is
    not skipped; the list without it gives another mapping. *)
Lemma buildVariableContext_keeps_infinity :
  isFiniteVariable (Var.mk (JStr "a") (JNum infinity)) = false
  /\ buildVariableContext [Var.mk (JStr "a") (JNum infinity)] !! "a"
     = Some (JNum infinity)
  /\ buildVariableContext
       (List.filter isFiniteVariable [Var.mk (JStr "a") (JNum infinity)]) !! "a"
     = None.
Proof. repeat split; vm_compute; reflexivity. Qed.

Lemma buildVariableContext_filter variables :
  buildVariableContext variables
  = buildVariableContext (List.filter isVariable variables).
Proof. unfold buildVariableContext. symmetry. apply fold_addVariable_filter. Qed.

Lemma buildVariableContext_lookup variables name :
  buildVariableContext variables !! name =
  if String.eqb name "__proto__" then None else lastBinding name variables.
Proof.
  unfold buildVariableContext.
  destruct (String.eqb_spec name "__proto__") as [->|Hne].
  - apply fold_addVariable_proto. apply lookup_empty.
  - rewrite fold_addVariable_lookup by exact Hne.
    destruct (lastBinding name variables); [reflexivity | apply lookup_empty].
Qed.

(** C2 (amended): [buildVariableContext] is a total function to mappings that
    skips every entry whose name is not a string or whose value is not of type
    number, so that the result is the one of the list without these entries;
    numbers that are not finite are kept. Every name other than ["__proto__"]
    is mapped to the value of the last accepted entry of that name, and is
    absent when there is none; ["__proto__"] is never bound. *)
Theorem buildVariableContext_spec (variables : list Var.t) :
  buildVariableContext variables
  = buildVariableContext (List.filter isVariable variables)
  /\ forall name,
       buildVariableContext variables !! name =
       if String.eqb name "__proto__" then None else lastBinding name variables.
Proof.
  split; [apply buildVariableContext_filter|].
  intros name. apply buildVariableContext_lookup.
Qed.

Lemma lastBinding_number name variables v :
  lastBinding name variables = Some v -> exists x, v = JNum x.
Proof.
  induction variables as [|variable rest IH]; [discriminate|].
  cbn [lastBinding]. destruct (lastBinding name rest); [auto|].
  unfold bindsName.
  destruct (Var.name variable); try discriminate.
  destruct (Var.value variable); try discriminate.
  destruct (String.eqb _ _); [|discriminate]. intros [= <-]. eauto.
Qed.

(** The context never binds to a function a name that the library does not. *)
Lemma mergeContext_function variables independentVar xValue name f :
  mergeContext (buildVariableContext variables) independentVar xValue !! name
  = Some (JFun f) ->
  safeMath !! name = Some (JFun f).
Proof.
  rewrite mergeContext_lookup.
  destruct (String.eqb name independentVar); [discriminate|].
  rewrite buildVariableContext_lookup.
  destruct (String.eqb name "__proto__"); [auto|].
  destruct (lastBinding name variables) as [v|] eqn:Hv; [|auto].
  apply lastBinding_number in Hv as [x ->]. discriminate.
Qed.

(** ** The evaluators *)

Section EvaluatorFacts.

Variable engine : Context -> string -> option JsVal.

Lemma evaluateExpressionSimple_eq expr xValue independentVar variables :
  evaluateExpressionSimple engine expr xValue independentVar variables =
  Value (settle (engine
                   (mergeContext (buildVariableContext variables) independentVar xValue)
                   (preprocessExpression expr))).
Proof.
  unfold evaluateExpressionSimple, runProcessed.
  destruct (engine _ _); reflexivity.
Qed.

Lemma stripPrefix_hasChar c p s r :
  stripPrefix p s = Some r -> hasChar c s = false -> hasChar c r = false.
Proof.
  revert s. induction p as [|a p IH]; intros s H Hs; cbn in H.
  - congruence.
  - destruct s as [|b s]; [discriminate|].
    destruct (Ascii.eqb a b); [|discriminate].
    cbn in Hs. apply orb_false_iff in Hs as [_ Hs]. eauto.
Qed.

Lemma spanInner_inner t :
  hasChar ")" (spanInner t).1 = false.
Proof.
  induction t as [|c t IH]; [reflexivity|].
  cbn [spanInner]. destruct (Ascii.eqb c ")") eqn:Hc; [reflexivity|].
  destruct (spanInner t) as [i r]. cbn in *. rewrite Hc. exact IH.
Qed.

Lemma spanInner_close t i r :
  spanInner t = (i, String ")" r) -> hasChar ")" t = true.
Proof.
  revert i. induction t as [|c t IH]; intros i H; cbn in H; [discriminate|].
  cbn [hasChar]. destruct (Ascii.eqb c ")") eqn:Hc; [reflexivity|].
  destruct (spanInner t) as [i' r'] eqn:Hs. injection H as _ ->.
  cbn. eauto.
Qed.

Lemma matchCall_inner funcName s m innerExpr :
  matchCall funcName s = Some (m, innerExpr) ->
  hasChar ")" innerExpr = false
  /\ innerExpr <> EmptyString
  /\ m = funcName +:+ "(" +:+ innerExpr +:+ ")".
Proof.
  unfold matchCall. intros H.
  destruct (stripPrefix funcName s) as [[|c0 t]|]; try discriminate.
  destruct (Ascii.eqb_spec c0 "(") as [->|Hc0].
  2:{ destruct c0 as [[] [] [] [] [] [] [] []]; try discriminate; congruence. }
  pose proof (spanInner_inner t) as Hi.
  destruct (spanInner t) as [[|c inner] [|c1 r]]; try discriminate.
  destruct (Ascii.eqb_spec c1 ")") as [->|Hc1].
  2:{ destruct c1 as [[] [] [] [] [] [] [] []]; try discriminate; congruence. }
  injection H as <- <-. repeat split; [exact Hi | discriminate].
Qed.

Lemma matchCall_no_close funcName s :
  hasChar ")" s = false -> matchCall funcName s = None.
Proof.
  intros Hs. unfold matchCall.
  destruct (stripPrefix funcName s) as [[|c0 t]|] eqn:Hp; try reflexivity.
  pose proof (stripPrefix_hasChar _ _ _ _ Hp Hs) as Ht.
  cbn in Ht. apply orb_false_iff in Ht as [_ Ht].
  destruct (spanInner t) as [i [|c1 r]] eqn:Hsp.
  - destruct c0 as [[] [] [] [] [] [] [] []]; try reflexivity;
      destruct i; reflexivity.
  - destruct (Ascii.eqb_spec c1 ")") as [->|Hc1].
    + apply spanInner_close in Hsp. congruence.
    + destruct c0 as [[] [] [] [] [] [] [] []]; try reflexivity;
        destruct i; try reflexivity;
        destruct c1 as [[] [] [] [] [] [] [] []]; try reflexivity; congruence.
Qed.

Lemma replaceCalls_no_close funcName callback skip s :
  hasChar ")" s = false ->
  replaceCalls funcName callback skip s = Value (dropChars skip s).
Proof.
  revert skip. induction s as [|c t IH]; intros skip Hs.
  - destruct skip; reflexivity.
  - pose proof Hs as Hs'. cbn [hasChar] in Hs'.
    apply orb_false_iff in Hs' as [_ Ht].
    destruct skip as [|k]; cbn [replaceCalls dropChars].
    + rewrite (matchCall_no_close _ _ Hs), (IH 0%nat Ht).
      destruct t; reflexivity.
    + apply IH, Ht.
Qed.

Lemma dropChars_0 s : dropChars 0 s = s.
Proof. destruct s; reflexivity. Qed.

Lemma forEachFunction_no_close self currentFuncId variables functions expr :
  hasChar ")" expr = false ->
  forEachFunction (resolveFunction engine self currentFuncId variables)
    functions expr = Value expr.
Proof.
  intros He. induction functions as [|func rest IH]; [reflexivity|].
  cbn [forEachFunction].
  assert (Hstep : resolveFunction engine self currentFuncId variables expr func
                  = Value expr).
  { destruct func as [func|]; [|reflexivity]. cbn [resolveFunction].
    destruct (_ || _); [reflexivity|].
    rewrite replaceCalls_no_close by exact He. rewrite dropChars_0. reflexivity. }
  rewrite Hstep. exact IH.
Qed.

Lemma evaluateExpression_S k expr xValue independentVar currentFuncId
  functions variables :
  evaluateExpression engine (S k) expr xValue independentVar currentFuncId
    functions variables
  = try_catch
      (processedExpr ←
         forEachFunction
           (resolveFunction engine
              (fun innerExpr =>
                 evaluateExpression engine k innerExpr xValue independentVar
                   currentFuncId functions variables)
              currentFuncId variables)
           functions expr;
       runProcessed engine processedExpr xValue independentVar variables)
      None.
Proof. reflexivity. Qed.

(** A text without a closing parenthesis holds no call: the composing
    evaluator runs it as the simple one does, and calls itself no further. *)
Lemma evaluateExpression_no_close k expr xValue independentVar currentFuncId
  functions variables :
  hasChar ")" expr = false ->
  evaluateExpression engine (S k) expr xValue independentVar currentFuncId
    functions variables
  = evaluateExpressionSimple engine expr xValue independentVar variables.
Proof.
  intros He. rewrite evaluateExpression_S.
  rewrite forEachFunction_no_close by exact He. reflexivity.
Qed.

Lemma substituteCall_eq k xValue independentVar currentFuncId functions
  variables func m innerExpr :
  hasChar ")" innerExpr = false ->
  substituteCall engine
    (fun innerExpr =>
       evaluateExpression engine (S k) innerExpr xValue independentVar
         currentFuncId functions variables)
    func variables m innerExpr
  = Value (substitution engine xValue independentVar variables func m innerExpr).
Proof.
  intros Hi. unfold substituteCall, substitution.
  rewrite evaluateExpression_no_close by exact Hi.
  rewrite evaluateExpressionSimple_eq. cbn.
  destruct (settle _) as [innerValue|]; [|reflexivity].
  rewrite evaluateExpressionSimple_eq. cbn.
  destruct (settle _); reflexivity.
Qed.

Lemma replaceCalls_rewriteCalls funcName callback sub skip s :
  (forall m innerExpr,
     hasChar ")" innerExpr = false -> callback m innerExpr = Value (sub m innerExpr)) ->
  replaceCalls funcName callback skip s = Value (rewriteCalls funcName sub skip s).
Proof.
  intros Hcb. revert skip. induction s as [|c t IH]; intros skip; [reflexivity|].
  destruct skip as [|k]; cbn [replaceCalls rewriteCalls]; [|apply IH].
  destruct (matchCall funcName (String c t)) as [[m innerExpr]|] eqn:Hm.
  - apply matchCall_inner in Hm as (Hi & _ & _).
    rewrite (Hcb _ _ Hi), IH. reflexivity.
  - rewrite IH. reflexivity.
Qed.

Lemma forEachFunction_resolved k xValue independentVar currentFuncId functions
  variables fs expr :
  forEachFunction
    (resolveFunction engine
       (fun innerExpr =>
          evaluateExpression engine (S k) innerExpr xValue independentVar
            currentFuncId functions variables)
       currentFuncId variables)
    fs expr
  = Value (fold_left
             (resolvedFunction engine xValue independentVar currentFuncId variables)
             fs expr).
Proof.
  revert expr. induction fs as [|func rest IH]; intros expr; [reflexivity|].
  cbn [forEachFunction fold_left].
  assert (Hstep :
    resolveFunction engine
      (fun innerExpr =>
         evaluateExpression engine (S k) innerExpr xValue independentVar
           currentFuncId functions variables)
      currentFuncId variables expr func
    = Value (resolvedFunction engine xValue independentVar currentFuncId
               variables expr func)).
  { destruct func as [func|]; [|reflexivity]. cbn [resolveFunction resolvedFunction].
    destruct (_ || _); [reflexivity|].
    apply replaceCalls_rewriteCalls. intros m innerExpr Hi.
    apply substituteCall_eq, Hi. }
  rewrite Hstep. apply IH.
Qed.

(** With fuel for two nested calls, [evaluateExpression] returns, and what it
    returns is the answer of the engine on the resolved text. *)
Lemma evaluateExpression_eq n expr xValue independentVar currentFuncId
  functions variables :
  evaluateExpression engine (S (S n)) expr xValue independentVar currentFuncId
    functions variables
  = Value (settle (engine
                     (mergeContext (buildVariableContext variables)
                        independentVar xValue)
                     (preprocessExpression
                        (resolvedText engine expr xValue independentVar
                           currentFuncId functions variables)))).
Proof.
  rewrite evaluateExpression_S, forEachFunction_resolved.
  apply evaluateExpressionSimple_eq.
Qed.

Lemma append_cons a s t : String a s +:+ t = String a (s +:+ t).
Proof. reflexivity. Qed.

Lemma append_assoc (s t u : string) : (s +:+ t) +:+ u = s +:+ (t +:+ u).
Proof.
  induction s as [|a s IH]; [reflexivity|].
  rewrite !append_cons, IH. reflexivity.
Qed.

Lemma stripPrefix_app p s r : stripPrefix p s = Some r -> s = p +:+ r.
Proof.
  revert s. induction p as [|a p IH]; intros s H; cbn in H.
  - injection H as ->. reflexivity.
  - destruct s as [|b s]; [discriminate|].
    destruct (Ascii.eqb_spec a b) as [->|]; [|discriminate].
    rewrite append_cons. f_equal. auto.
Qed.

Lemma spanInner_app t : t = (spanInner t).1 +:+ (spanInner t).2.
Proof.
  induction t as [|c t IH]; [reflexivity|].
  cbn [spanInner]. destruct (Ascii.eqb c ")"); [reflexivity|].
  destruct (spanInner t) as [i r]. cbn in *. rewrite append_cons. congruence.
Qed.

Lemma matchCall_split funcName s m innerExpr :
  matchCall funcName s = Some (m, innerExpr) -> exists rest, s = m +:+ rest.
Proof.
  unfold matchCall. intros H.
  destruct (stripPrefix funcName s) as [[|c0 t]|] eqn:Hp; try discriminate.
  destruct (Ascii.eqb_spec c0 "(") as [->|Hc0].
  2:{ destruct c0 as [[] [] [] [] [] [] [] []]; try discriminate; congruence. }
  pose proof (spanInner_app t) as Ht.
  destruct (spanInner t) as [[|c inner] [|c1 r]]; try discriminate.
  destruct (Ascii.eqb_spec c1 ")") as [->|Hc1].
  2:{ destruct c1 as [[] [] [] [] [] [] [] []]; try discriminate; congruence. }
  injection H as <- <-. exists r.
  apply stripPrefix_app in Hp. rewrite Hp. cbn in Ht. rewrite Ht.
  rewrite !append_assoc. reflexivity.
Qed.

Lemma replaceCalls_skip funcName callback p rest :
  replaceCalls funcName callback (String.length p) (p +:+ rest)
  = replaceCalls funcName callback 0 rest.
Proof.
  induction p as [|a p IH]; [destruct rest; reflexivity|].
  rewrite append_cons. exact IH.
Qed.

(** At a match, the rewritten text is what the callback returns followed by
    the rewriting of the text after the match. *)
Lemma replaceCalls_match funcName callback s m innerExpr rest :
  matchCall funcName s = Some (m, innerExpr) -> s = m +:+ rest ->
  replaceCalls funcName callback 0 s
  = (r ← callback m innerExpr;
     rest' ← replaceCalls funcName callback 0 rest;
     Value (r +:+ rest')).
Proof.
  intros Hm Hs.
  destruct s as [|c t].
  { apply matchCall_inner in Hm as (_ & _ & ->).
    destruct funcName; discriminate Hs. }
  cbn [replaceCalls]. rewrite Hm.
  destruct m as [|c' m'].
  { apply matchCall_inner in Hm as (_ & _ & Hm). destruct funcName; discriminate Hm. }
  rewrite append_cons in Hs. injection Hs as _ ->.
  cbn [String.length Nat.pred]. rewrite replaceCalls_skip. reflexivity.
Qed.

(** A text in which the pattern matches nowhere is left as it is. *)
Lemma replaceCalls_unmatched funcName callback text :
  (forall p1 p2, text = p1 +:+ p2 -> matchCall funcName p2 = None) ->
  replaceCalls funcName callback 0 text = Value text.
Proof.
  induction text as [|c t IH]; intros H; [reflexivity|].
  cbn [replaceCalls]. rewrite (H "" (String c t) eq_refl).
  rewrite IH; [reflexivity|].
  intros p1 p2 ->. apply (H (String c p1) p2). reflexivity.
Qed.

(** The text before the leftmost match is kept, the match is handed to the
    callback, and the rewriting goes on after the match. *)
Lemma replaceCalls_leftmost funcName callback pre s m innerExpr rest :
  (forall p1 p2, pre = p1 +:+ p2 -> p2 <> "" ->
                 matchCall funcName (p2 +:+ s) = None) ->
  matchCall funcName s = Some (m, innerExpr) -> s = m +:+ rest ->
  replaceCalls funcName callback 0 (pre +:+ s)
  = (r ← callback m innerExpr;
     rest' ← replaceCalls funcName callback 0 rest;
     Value (pre +:+ r +:+ rest')).
Proof.
  intros H Hm Hs. induction pre as [|c p IH].
  - apply replaceCalls_match; assumption.
  - rewrite append_cons. cbn [replaceCalls].
    rewrite <- append_cons.
    rewrite (H "" (String c p) eq_refl) by discriminate.
    rewrite IH.
    + destruct (callback m innerExpr) as [r| |]; try reflexivity.
      cbn [mbind Outcome_bind].
      destruct (replaceCalls funcName callback 0 rest); reflexivity.
    + intros p1 p2 -> Hp2. apply (H (String c p1) p2); [reflexivity | exact Hp2].
Qed.

End EvaluatorFacts.

(** ** The claims on the evaluators *)

(** C6: in the context both evaluators hand to the engine, the binding of the
    independent variable shadows every other binding of its name, and a
    Variable-list binding shadows the library entry of its name; the library
    entry shows only for a name bound by neither. So a variable [PI] or [sin]
    hides the library's, and an independent variable [PI] hides both. *)
Theorem mergeContext_shadowing (engine : Context -> string -> option JsVal)
  (n : nat) (expr : string) (xValue : float) (independentVar : string)
  (currentFuncId : option nat) (functions : list (option FunctionDef.t))
  (variables : list Var.t) :
  let allContext :=
    mergeContext (buildVariableContext variables) independentVar xValue in
  (forall name,
     allContext !! name =
     if String.eqb name independentVar then Some (JNum xValue)
     else match buildVariableContext variables !! name with
          | Some v => Some v
          | None => safeMath !! name
          end)
  /\ evaluateExpressionSimple engine expr xValue independentVar variables
     = Value (settle (engine allContext (preprocessExpression expr)))
  /\ (exists processedExpr,
        evaluateExpression engine (S (S n)) expr xValue independentVar
          currentFuncId functions variables
        = Value (settle (engine allContext (preprocessExpression processedExpr))))
  /\ (forall math,
        let PI3 := [Var.mk (JStr "PI") (JNum 3)] in
        evaluateExpressionSimple (jsEngine math) "PI" 7 "x" [] = Value (Some Math_PI)
        /\ evaluateExpressionSimple (jsEngine math) "PI" 7 "x" PI3 = Value (Some 3%float)
        /\ evaluateExpressionSimple (jsEngine math) "PI" 7 "PI" PI3 = Value (Some 7%float)
        /\ evaluateExpressionSimple (jsEngine math) "sin + 1" 7 "x"
             [Var.mk (JStr "sin") (JNum 5)] = Value (Some 6%float)
        /\ evaluateExpression (jsEngine math) (S (S n)) "PI" 7 "PI" None [] PI3
           = Value (Some 7%float)).
Proof.
  cbv zeta. split; [|split; [|split]].
  - intros name. apply mergeContext_lookup.
  - apply evaluateExpressionSimple_eq.
  - eexists. apply evaluateExpression_eq.
  - intros math. rewrite evaluateExpression_eq.
    repeat split; vm_compute; reflexivity.
Qed.


(** C4: with fuel for two nested calls both evaluations return, and
    [numericalDerivative] is [null] when either of them is, and exactly
    [(f1 - f2) / (2 * h)] otherwise. *)
Theorem numericalDerivative_central_difference
  (engine : Context -> string -> option JsVal) (n : nat) (expr : string)
  (xValue : float) (independentVar : string) (currentFuncId : option nat)
  (functions : list (option FunctionDef.t)) (variables : list Var.t)
  (h : float) :
  exists r1 r2,
    evaluateExpression engine (S (S n)) expr (xValue + h) independentVar
      currentFuncId functions variables = Value r1
    /\ evaluateExpression engine (S (S n)) expr (xValue - h) independentVar
         currentFuncId functions variables = Value r2
    /\ numericalDerivative engine (S (S n)) expr xValue independentVar
         currentFuncId functions variables h
       = Value match r1, r2 with
               | Some f1, Some f2 => Some ((f1 - f2) / (2 * h))%float
               | _, _ => None
               end.
Proof.
  unfold numericalDerivative. rewrite !evaluateExpression_eq.
  do 2 eexists. split; [reflexivity|]. split; [reflexivity|]. cbn.
  repeat match goal with
         | |- context [settle ?r] => destruct (settle r)
         end; reflexivity.
Qed.

(** C8: the rewriting of the calls of a function in a text, the functions
    named by identifiers as the data model has them. A text in which the
    pattern matches nowhere is left as it is. Otherwise the text before the
    leftmost match is kept, the match is replaced by its substitution, and
    the text after the match is rewritten in the same way, so that every
    match of the text is reached. The substitution is the decimal text of the
    value of the function when both the argument and the expression of the
    function at that argument evaluate to a number, and it is the matched
    text itself, untouched, when either fails. *)
Theorem call_substitution
  (engine : Context -> string -> option JsVal) (k : nat) (xValue : float)
  (independentVar : string) (currentFuncId : option nat)
  (functions : list (option FunctionDef.t)) (variables : list Var.t)
  (func : FunctionDef.t) (text : string) :
  let funcName := orDefault (FunctionDef.dependentVar func) "f" in
  let funcIndepVar := orDefault (FunctionDef.independentVar func) "x" in
  let self innerExpr :=
    evaluateExpression engine (S k) innerExpr xValue independentVar
      currentFuncId functions variables in
  let callback := substituteCall engine self func variables in
  namedByIdentifiers (Some func :: functions) = true ->
  ((forall p1 p2, text = p1 +:+ p2 -> matchCall funcName p2 = None) ->
   replaceCalls funcName callback 0 text = Value text)
  /\ (forall pre s m innerExpr,
        text = pre +:+ s ->
        (forall p1 p2, pre = p1 +:+ p2 -> p2 <> "" ->
                       matchCall funcName (p2 +:+ s) = None) ->
        matchCall funcName s = Some (m, innerExpr) ->
        exists r rest,
          s = m +:+ rest
          /\ replaceCalls funcName callback 0 text
             = (rest' ← replaceCalls funcName callback 0 rest;
                Value (pre +:+ r +:+ rest'))
          /\ match self innerExpr with
             | Value (Some innerValue) =>
                 match evaluateExpressionSimple engine (FunctionDef.expr func)
                         innerValue funcIndepVar variables with
                 | Value (Some funcValue) => r = numberToString funcValue
                 | _ => r = m
                 end
             | _ => r = m
             end).
Proof.
  intros funcName funcIndepVar self callback _. split.
  - apply replaceCalls_unmatched.
  - intros pre s m innerExpr -> Hpre Hm.
    destruct (matchCall_split _ _ _ _ Hm) as [rest Hs].
    destruct (matchCall_inner _ _ _ _ Hm) as (Hi & _ & _).
    exists (substitution engine xValue independentVar variables func m innerExpr),
      rest.
    split; [exact Hs|]. split.
    + rewrite (replaceCalls_leftmost _ _ _ _ _ _ _ Hpre Hm Hs).
      unfold callback, self. rewrite substituteCall_eq by exact Hi. reflexivity.
    + unfold self, substitution.
      rewrite evaluateExpression_no_close by exact Hi.
      rewrite evaluateExpressionSimple_eq.
      destruct (settle _) as [innerValue|]; [|reflexivity].
      rewrite evaluateExpressionSimple_eq. fold funcIndepVar.
      destruct (settle _); reflexivity.
Qed.

Lemma call_substitution_witness :
  let engine := jsEngine exampleMath in
  let g := FunctionDef.mk 2 "x*x" true "x" "g" in
  let self innerExpr :=
    evaluateExpression engine 1 innerExpr 3 "x" None [Some g] [] in
  let callback := substituteCall engine self g [] in
  replaceCalls "g" callback 0 "1+x" = Value "1+x"
  /\ exists r rest,
       "g(x)+1" = "g(x)" +:+ rest
       /\ replaceCalls "g" callback 0 "1+g(x)+1"
          = (rest' ← replaceCalls "g" callback 0 rest;
             Value ("1+" +:+ r +:+ rest'))
       /\ match self "x" with
          | Value (Some innerValue) =>
              match evaluateExpressionSimple engine "x*x" innerValue "x" [] with
              | Value (Some funcValue) => r = numberToString funcValue
              | _ => r = "g(x)"
              end
          | _ => r = "g(x)"
          end.
Proof.
  split.
  - apply (proj1 (call_substitution (jsEngine exampleMath) 0 3 "x" None
                    [Some (FunctionDef.mk 2 "x*x" true "x" "g")] []
                    (FunctionDef.mk 2 "x*x" true "x" "g") "1+x" eq_refl)).
    intros p1 p2 H.
    repeat (destruct p1 as [|? p1];
            [change (EmptyString +:+ p2) with p2 in H; subst p2; reflexivity|];
            rewrite append_cons in H; try discriminate H;
            injection H as _ H).
  - apply (proj2 (call_substitution (jsEngine exampleMath) 0 3 "x" None
                    [Some (FunctionDef.mk 2 "x*x" true "x" "g")] []
                    (FunctionDef.mk 2 "x*x" true "x" "g") "1+g(x)+1" eq_refl)
             "1+" "g(x)+1" "g(x)" "x" eq_refl); [|reflexivity].
    intros p1 p2 H Hp2.
    repeat (destruct p1 as [|? p1];
            [change (EmptyString +:+ p2) with p2 in H; subst p2;
             try reflexivity; contradiction|];
            rewrite append_cons in H; try discriminate H;
            injection H as _ H).
Defined.

(** ** The evaluators over [jsEngine] *)

Section EngineFacts.

Variable math : MathFn -> list float -> float.

(** A call of a name that the context does not bind to a function throws. *)
Lemma jsEngine_call_not_function ctx text name args :
  parseExpression text = Some (ECall name args) ->
  (forall f, ctx !! name <> Some (JFun f)) ->
  jsEngine math ctx text = None.
Proof.
  intros Hp Hf. unfold jsEngine. rewrite Hp.
  destruct (forallb _ _); [|reflexivity].
  cbn [evalExpr]. destruct (ctx !! name) as [[| | | | |f]|]; try reflexivity.
  destruct (Hf f). reflexivity.
Qed.

Lemma jsEngine_call_unbound variables independentVar xValue text name args :
  parseExpression text = Some (ECall name args) ->
  safeMath !! name = None ->
  jsEngine math
    (mergeContext (buildVariableContext variables) independentVar xValue) text
  = None.
Proof.
  intros Hp Hs. eapply jsEngine_call_not_function; [exact Hp|].
  intros f Hf. apply mergeContext_function in Hf. congruence.
Qed.

End EngineFacts.

Lemma rewriteCalls_fx_f sub : rewriteCalls "f" sub 0 "f(x)" = sub "f(x)" "x" +:+ "".
Proof. reflexivity. Qed.
Lemma rewriteCalls_fx_g sub : rewriteCalls "g" sub 0 "f(x)" = "f(x)".
Proof. reflexivity. Qed.
Lemma rewriteCalls_gx_f sub : rewriteCalls "f" sub 0 "g(x)" = "g(x)".
Proof. reflexivity. Qed.
Lemma rewriteCalls_gx_g sub : rewriteCalls "g" sub 0 "g(x)" = sub "g(x)" "x" +:+ "".
Proof. reflexivity. Qed.

Lemma parse_fx : parseExpression "f(x)" = Some (ECall "f" [EVar "x"]).
Proof. vm_compute. reflexivity. Qed.
Lemma parse_gx : parseExpression "g(x)" = Some (ECall "g" [EVar "x"]).
Proof. vm_compute. reflexivity. Qed.

(** The substitution for a call of a function whose expression calls a name
    that is no library function: the call is left as it is. *)
Lemma substitution_unbound math xValue independentVar variables func m innerExpr
  name args :
  parseExpression (preprocessExpression (FunctionDef.expr func))
  = Some (ECall name args) ->
  safeMath !! name = None ->
  substitution (jsEngine math) xValue independentVar variables func m innerExpr = m.
Proof.
  intros Hp Hs. unfold substitution.
  destruct (settle _); [|reflexivity].
  rewrite (jsEngine_call_unbound math _ _ _ _ _ _ Hp Hs). reflexivity.
Qed.

(** C3: the nesting of [evaluateExpression] is bounded, whatever the
    functions, named by identifiers as the data model has them, and whatever
    the engine answers. The text of an argument holds no closing parenthesis,
    hence no call, and the expression of a function is run by the simple
    evaluator, so that two nested calls are all there are: with fuel for two
    the evaluator returns, and more fuel changes nothing (fuel for one is not
    enough when the text holds a call). For the cycle [f(x) = g(x)],
    [g(x) = f(x)] a call of either function evaluates to [null], whatever the
    variables and the independent variable, named by identifiers too. *)
Theorem evaluateExpression_bounded_recursion :
  (forall (engine : Context -> string -> option JsVal) (n : nat) (expr : string)
          (xValue : float) (independentVar : string)
          (currentFuncId : option nat)
          (functions : list (option FunctionDef.t)) (variables : list Var.t),
      namedByIdentifiers functions = true ->
      evaluateExpression engine (S (S n)) expr xValue independentVar
        currentFuncId functions variables
      = evaluateExpression engine 2 expr xValue independentVar
          currentFuncId functions variables
      /\ exists r,
           evaluateExpression engine 2 expr xValue independentVar
             currentFuncId functions variables = Value r)
  /\ (forall (engine : Context -> string -> option JsVal),
        evaluateExpression engine 1 "f(x)" 0 "x" None
          [Some (FunctionDef.mk 1 "g(x)" true "x" "f")] [] = OutOfFuel)
  /\ (forall (math : MathFn -> list float -> float) (n : nat) (xValue : float)
             (independentVar : string) (currentFuncId : option nat)
             (variables : list Var.t) (idF idG : nat) (visibleF visibleG : bool),
        isIdentifierLike independentVar = true ->
        identifierVariables variables = true ->
        let f := FunctionDef.mk idF "g(x)" visibleF "x" "f" in
        let g := FunctionDef.mk idG "f(x)" visibleG "x" "g" in
        evaluateExpression (jsEngine math) (S (S n)) "f(x)" xValue
          independentVar currentFuncId [Some f; Some g] variables = Value None
        /\ evaluateExpression (jsEngine math) (S (S n)) "g(x)" xValue
             independentVar currentFuncId [Some f; Some g] variables = Value None).
Proof.
  split; [|split].
  - intros. rewrite !evaluateExpression_eq. split; [reflexivity | eauto].
  - intros engine. reflexivity.
  - intros math n xValue independentVar currentFuncId variables idF idG
      visibleF visibleG _ _ f g.
    assert (Hf : forall m innerExpr,
               substitution (jsEngine math) xValue independentVar variables f m innerExpr = m).
    { intros. eapply substitution_unbound; [exact parse_gx | reflexivity]. }
    assert (Hg : forall m innerExpr,
               substitution (jsEngine math) xValue independentVar variables g m innerExpr = m).
    { intros. eapply substitution_unbound; [exact parse_fx | reflexivity]. }
    split; rewrite evaluateExpression_eq; unfold resolvedText;
      cbn [fold_left resolvedFunction].
    + assert (H1 : (if bool_decide (Some (FunctionDef.id f) = currentFuncId)
                       || negb (FunctionDef.visible f)
                    then "f(x)"
                    else rewriteCalls (orDefault (FunctionDef.dependentVar f) "f")
                           (substitution (jsEngine math) xValue independentVar variables f)
                           0 "f(x)") = "f(x)").
      { destruct (_ || _); [reflexivity|].
        change (orDefault (FunctionDef.dependentVar f) "f") with "f".
        rewrite rewriteCalls_fx_f, Hf. reflexivity. }
      rewrite H1. clear H1.
      assert (H2 : (if bool_decide (Some (FunctionDef.id g) = currentFuncId)
                       || negb (FunctionDef.visible g)
                    then "f(x)"
                    else rewriteCalls (orDefault (FunctionDef.dependentVar g) "f")
                           (substitution (jsEngine math) xValue independentVar variables g)
                           0 "f(x)") = "f(x)").
      { destruct (_ || _); reflexivity. }
      rewrite H2.
      rewrite (jsEngine_call_unbound math _ _ _ _ "f" [EVar "x"]);
        [reflexivity | exact parse_fx | reflexivity].
    + assert (H1 : (if bool_decide (Some (FunctionDef.id f) = currentFuncId)
                       || negb (FunctionDef.visible f)
                    then "g(x)"
                    else rewriteCalls (orDefault (FunctionDef.dependentVar f) "f")
                           (substitution (jsEngine math) xValue independentVar variables f)
                           0 "g(x)") = "g(x)").
      { destruct (_ || _); reflexivity. }
      rewrite H1. clear H1.
      assert (H2 : (if bool_decide (Some (FunctionDef.id g) = currentFuncId)
                       || negb (FunctionDef.visible g)
                    then "g(x)"
                    else rewriteCalls (orDefault (FunctionDef.dependentVar g) "f")
                           (substitution (jsEngine math) xValue independentVar variables g)
                           0 "g(x)") = "g(x)").
      { destruct (_ || _); [reflexivity|].
        change (orDefault (FunctionDef.dependentVar g) "f") with "g".
        rewrite rewriteCalls_gx_g, Hg. reflexivity. }
      rewrite H2.
      rewrite (jsEngine_call_unbound math _ _ _ _ "g" [EVar "x"]);
        [reflexivity | exact parse_gx | reflexivity].
Qed.

Lemma evaluateExpression_bounded_recursion_witness :
  let f := FunctionDef.mk 1 "g(x)" true "x" "f" in
  let g := FunctionDef.mk 2 "f(x)" true "x" "g" in
  (evaluateExpression (jsEngine exampleMath) 5 "f(x) + g(x)" 3 "x" None
     [Some f; Some g] []
   = evaluateExpression (jsEngine exampleMath) 2 "f(x) + g(x)" 3 "x" None
       [Some f; Some g] []
   /\ exists r,
        evaluateExpression (jsEngine exampleMath) 2 "f(x) + g(x)" 3 "x" None
          [Some f; Some g] [] = Value r)
  /\ evaluateExpression (jsEngine exampleMath) 2 "f(x)" 3 "t" (Some 2%nat)
       [Some f; Some g] [Var.mk (JStr "a") (JNum 1)] = Value None.
Proof.
  destruct evaluateExpression_bounded_recursion as (Hbound & _ & Hcycle).
  split.
  - exact (Hbound (jsEngine exampleMath) 3%nat "f(x) + g(x)" 3%float "x" None
             [Some (FunctionDef.mk 1 "g(x)" true "x" "f");
              Some (FunctionDef.mk 2 "f(x)" true "x" "g")] [] eq_refl).
  - exact (proj1 (Hcycle exampleMath 0%nat 3%float "t" (Some 2%nat)
                    [Var.mk (JStr "a") (JNum 1)] 1%nat 2%nat true true
                    eq_refl eq_refl)).
Defined.

(** C7: implicit multiplication and the constant [pi]. The normalizer turns
    ["2pi + 3x"] into ["2*PI + 3*x"], and with [x = 4] the evaluator returns
    the number [2 * PI + 3 * 4], which is [2 * PI + 12] and is within [1e-9]
    of it. *)
Theorem implicit_multiplication_and_pi (math : MathFn -> list float -> float) :
  let variables := [Var.mk (JStr "pi") (JNum Math_PI)] in
  let expected := (2 * Math_PI + 12)%float in
  preprocessExpression "2pi + 3x" = "2*PI + 3*x"
  /\ exists result,
       evaluateExpressionSimple (jsEngine math) "2pi + 3x" 4 "x" variables
       = Value (Some result)
       /\ result = (2 * Math_PI + 3 * 4)%float
       /\ result = expected
       /\ (abs (result - expected) <? 1e-9)%float = true.
Proof.
  cbv zeta. split; [reflexivity|].
  eexists. split; [vm_compute; reflexivity|].
  repeat split; vm_compute; reflexivity.
Qed.

(** C10: [numericalDerivative] does not test its own result. With [h = 0]
    both evaluations of ["x"] at [1] return the finite number [1] and the
    derivative is [NaN]; with [a = 1e200] and [h = 1e-100] both evaluations of
    ["a*x*a"] around [0] return finite numbers and the derivative is
    [Infinity]. Neither is the [null] sentinel. *)
Theorem numericalDerivative_not_finite
  (math : MathFn -> list float -> float) (n : nat) :
  let a := [Var.mk (JStr "a") (JNum 1e200)] in
  (evaluateExpression (jsEngine math) (S (S n)) "x" (1 + 0) "x" None [] []
   = Value (Some 1%float)
   /\ evaluateExpression (jsEngine math) (S (S n)) "x" (1 - 0) "x" None [] []
      = Value (Some 1%float)
   /\ numericalDerivative (jsEngine math) (S (S n)) "x" 1 "x" None [] [] 0
      = Value (Some nan))
  /\ (evaluateExpression (jsEngine math) (S (S n)) "a*x*a" (0 + 1e-100) "x" None [] a
      = Value (Some 1e300%float)
      /\ evaluateExpression (jsEngine math) (S (S n)) "a*x*a" (0 - 1e-100) "x" None [] a
         = Value (Some (-1e300)%float)
      /\ numericalDerivative (jsEngine math) (S (S n)) "a*x*a" 0 "x" None [] a 1e-100
         = Value (Some infinity))
  /\ PrimFloat.is_finite nan = false /\ PrimFloat.is_finite infinity = false.
Proof.
  cbv zeta. unfold numericalDerivative. rewrite !evaluateExpression_eq.
  repeat split; vm_compute; reflexivity.
Qed.

Lemma resolvedText_single_call engine xValue independentVar variables func :
  FunctionDef.dependentVar func = "f" -> FunctionDef.visible func = true ->
  resolvedText engine "f(x)" xValue independentVar None [Some func] variables
  = substitution engine xValue independentVar variables func "f(x)" "x" +:+ "".
Proof.
  intros Hd Hv. unfold resolvedText. cbn [fold_left resolvedFunction].
  rewrite Hd, Hv. reflexivity.
Qed.

Lemma append_nil_r s : s +:+ "" = s.
Proof.
  induction s as [|a s IH]; [reflexivity|]. rewrite append_cons, IH. reflexivity.
Qed.

(** C9: composition agrees with direct evaluation. With [a = 2], [b = 0.5],
    [c = 1] and [f(x) = a*sin(b*x) + c], the simple evaluator returns for
    ["a*sin(b*x)+c"] at [2] the number [v = 2 * Math.sin(1) + 1] when it is
    finite, and the composing evaluator returns for ["f(x)"] at [2] what the
    decimal text of [v] evaluates to. On a host whose [Math.sin(1)] is
    [0.8414709848078965] the two evaluators return the same number,
    [2.682941969615793]. *)
Theorem composition_agrees_with_direct_evaluation
  (math : MathFn -> list float -> float) (n : nat) :
  let variables :=
    [ Var.mk (JStr "a") (JNum 2); Var.mk (JStr "b") (JNum 0.5);
      Var.mk (JStr "c") (JNum 1) ] in
  let f := FunctionDef.mk 1 "a*sin(b*x) + c" true "x" "f" in
  let composed :=
    evaluateExpression (jsEngine math) (S (S n)) "f(x)" 2 "x" None [Some f]
      variables in
  let direct :=
    evaluateExpressionSimple (jsEngine math) "a*sin(b*x)+c" 2 "x" variables in
  let v := (2 * math Math_sin [1%float] + 1)%float in
  direct = Value (if PrimFloat.is_finite v then Some v else None)
  /\ composed
     = (if PrimFloat.is_finite v
        then evaluateExpressionSimple (jsEngine math) (numberToString v) 2 "x"
               variables
        else Value None)
  /\ (math Math_sin [1%float] = 0.8414709848078965%float ->
      composed = direct /\ direct = Value (Some 2.682941969615793%float)).
Proof.
  intros variables f composed direct v.
  assert (Hdirect :
    direct = Value (if PrimFloat.is_finite v then Some v else None)).
  { unfold direct. rewrite evaluateExpressionSimple_eq.
    replace (jsEngine math _ _) with (Some (JNum v)) by (vm_compute; reflexivity).
    reflexivity. }
  assert (Hcomposed :
    composed
    = (if PrimFloat.is_finite v
       then evaluateExpressionSimple (jsEngine math) (numberToString v) 2 "x"
              variables
       else Value None)).
  { unfold composed.
    rewrite evaluateExpression_eq, resolvedText_single_call by reflexivity.
    unfold substitution.
    replace (settle (jsEngine math _ (preprocessExpression "x")))
      with (Some 2%float) by (vm_compute; reflexivity).
    replace (jsEngine math _ (preprocessExpression (FunctionDef.expr f)))
      with (Some (JNum v)) by (vm_compute; reflexivity).
    cbn [settle finiteOrNull].
    destruct (PrimFloat.is_finite v).
    - rewrite append_nil_r, evaluateExpressionSimple_eq. reflexivity.
    - change ("f(x)" +:+ "") with "f(x)".
      rewrite (jsEngine_call_unbound math _ _ _ _ "f" [EVar "x"]);
        [reflexivity | exact parse_fx | reflexivity]. }
  split; [exact Hdirect|]. split; [exact Hcomposed|].
  intros Hsin. rewrite Hcomposed, Hdirect. unfold v. rewrite Hsin.
  split; vm_compute; reflexivity.
Qed.

Lemma composition_agrees_witness :
  let variables :=
    [ Var.mk (JStr "a") (JNum 2); Var.mk (JStr "b") (JNum 0.5);
      Var.mk (JStr "c") (JNum 1) ] in
  let f := FunctionDef.mk 1 "a*sin(b*x) + c" true "x" "f" in
  evaluateExpression (jsEngine exampleMath) 2 "f(x)" 2 "x" None [Some f] variables
  = evaluateExpressionSimple (jsEngine exampleMath) "a*sin(b*x)+c" 2 "x" variables
  /\ evaluateExpressionSimple (jsEngine exampleMath) "a*sin(b*x)+c" 2 "x" variables
     = Value (Some 2.682941969615793%float).
Proof.
  exact (proj2 (proj2 (composition_agrees_with_direct_evaluation exampleMath 0))
           eq_refl).
Defined.

(** * Further properties

    ** The normalizer *)

Lemma eNormal_e s : eNormal (replaceAll ePattern 0 s) = true.
Proof.
  induction s as [|c t IH]; [reflexivity|].
  rewrite replaceAll_e_cons. cbn [eNormal]. rewrite IH, blocksE_e, andb_true_r.
  destruct (isChar "e" "E" c && negb (blocksE t)) eqn:H.
  - apply orb_true_r.
  - rewrite H. reflexivity.
Qed.

Lemma replaceAll_e_fixed s : eNormal s = true -> replaceAll ePattern 0 s = s.
Proof.
  induction s as [|c t IH]; [reflexivity|].
  cbn [eNormal]. intros H. apply andb_true_iff in H as [Hc Ht].
  rewrite replaceAll_e_cons, (IH Ht). f_equal.
  destruct (isChar "e" "E" c && negb (blocksE t)); [|reflexivity].
  cbn in Hc. apply Ascii.eqb_eq in Hc. congruence.
Qed.

(** The normal forms the seven rules establish, all holding of the output. *)
Lemma preprocessExpression_normal_forms s :
  let t := preprocessExpression s in
  hasChar "^" t = false
  /\ adjacent digitLetter t = false
  /\ adjacent closeDigit t = false
  /\ adjacent digitOpen t = false
  /\ adjacent closeOpen t = false
  /\ adjacent piChanges t = false
  /\ eNormal t = true.
Proof.
  unfold preprocessExpression.
  set (s1 := replaceAll caretPattern 0 s).
  set (s2 := replaceAll (pairPattern digitLetter star) 0 s1).
  set (s3 := replaceAll (pairPattern closeDigit star) 0 s2).
  set (s4 := replaceAll (pairPattern digitOpen star) 0 s3).
  set (s5 := replaceAll (pairPattern closeOpen star) 0 s4).
  set (s6 := replaceAll (pairPattern piPair (fun _ _ => "PI")) 0 s5).
  set (s7 := replaceAll ePattern 0 s6).
  assert (R2 : Rewrites recased s1 s2) by apply rewrites_star, recased_refl.
  assert (R3 : Rewrites recased s2 s3) by apply rewrites_star, recased_refl.
  assert (R4 : Rewrites recased s3 s4) by apply rewrites_star, recased_refl.
  assert (R5 : Rewrites recased s4 s5) by apply rewrites_star, recased_refl.
  assert (R6 : Rewrites recased s5 s6) by apply rewrites_pi.
  assert (R7e : Rewrites recasedE s6 s7) by apply rewrites_e.
  assert (R7 : Rewrites recased s6 s7)
    by (eapply rewrites_mono; [apply recasedE_recased | exact R7e]).
  cbv zeta. repeat apply conj.
  - do 6 (eapply hasCaret_rewrites; [eassumption|]). apply hasCaret_caret.
  - do 5 (eapply adjacent_rewrites_class;
            [apply starFree_digitLetter | apply class_digitLetter | eassumption |]).
    apply adjacent_star; [apply starFree_digitLetter | apply apart_digitLetter].
  - do 4 (eapply adjacent_rewrites_class;
            [apply starFree_closeDigit | apply class_closeDigit | eassumption |]).
    apply adjacent_star; [apply starFree_closeDigit | apply apart_closeDigit].
  - do 3 (eapply adjacent_rewrites_class;
            [apply starFree_digitOpen | apply class_digitOpen | eassumption |]).
    apply adjacent_star; [apply starFree_digitOpen | apply apart_digitOpen].
  - do 2 (eapply adjacent_rewrites_class;
            [apply starFree_closeOpen | apply class_closeOpen | eassumption |]).
    apply adjacent_star; [apply starFree_closeOpen | apply apart_closeOpen].
  - eapply adjacent_rewrites;
      [apply starFree_piChanges | apply piChanges_recasedE | exact R7e |].
    apply adjacent_pi.
  - apply eNormal_e.
Qed.

(** X1: the output of the normalizer is normalized: it holds no [^], no
    digit followed at once by a letter or an opening parenthesis, no closing
    parenthesis followed at once by a digit or an opening parenthesis; every
    [pi] is spelled [PI] and every [e] that the lookahead lets through [E]. *)
Theorem preprocessExpression_normalized (s : string) :
  isNormalized (preprocessExpression s) = true.
Proof.
  destruct (preprocessExpression_normal_forms s)
    as (H1 & H2 & H3 & H4 & H5 & H6 & H7).
  unfold isNormalized. rewrite H1, H2, H3, H4, H5, H6, H7. reflexivity.
Qed.

Lemma isNormalized_preprocessExpression s :
  isNormalized (preprocessExpression s) = true.
Proof.
  destruct (preprocessExpression_normal_forms s)
    as (H1 & H2 & H3 & H4 & H5 & H6 & H7).
  unfold isNormalized. rewrite H1, H2, H3, H4, H5, H6, H7. reflexivity.
Qed.

Lemma preprocessExpression_fixed s :
  isNormalized s = true -> preprocessExpression s = s.
Proof.
  unfold isNormalized. intros H.
  repeat (apply andb_true_iff in H as [H ?]).
  repeat match goal with
         | H : negb _ = true |- _ => apply negb_true_iff in H
         end.
  unfold preprocessExpression.
  rewrite (replaceAll_caret_fixed s) by assumption.
  rewrite (replaceAll_star_fixed digitLetter s) by assumption.
  rewrite (replaceAll_star_fixed closeDigit s) by assumption.
  rewrite (replaceAll_star_fixed digitOpen s) by assumption.
  rewrite (replaceAll_star_fixed closeOpen s) by assumption.
  rewrite (replaceAll_pair_fixed piPair _ s) by assumption.
  apply replaceAll_e_fixed. assumption.
Qed.

(** X2: the texts the normalizer leaves as they are are exactly the
    normalized ones. *)
Theorem preprocessExpression_fixed_iff (s : string) :
  preprocessExpression s = s <-> isNormalized s = true.
Proof.
  split.
  - intros H. rewrite <- H. apply isNormalized_preprocessExpression.
  - apply preprocessExpression_fixed.
Qed.

(** ** The context builder *)

Lemma lastBinding_in name variables v :
  lastBinding name variables = Some v ->
  exists variable,
    In variable variables /\ bindsName name variable = true
    /\ Var.value variable = v.
Proof.
  induction variables as [|variable rest IH]; [discriminate|].
  cbn [lastBinding]. destruct (lastBinding name rest) as [w|] eqn:Hrest.
  - intros [= <-]. destruct (IH eq_refl) as (e & He & Hb & Hv).
    exists e. split; [right; exact He | auto].
  - destruct (bindsName name variable) eqn:Hb; [|discriminate].
    intros [= <-]. exists variable. split; [left; reflexivity | auto].
Qed.

Lemma bindsName_acceptedNames name variable variables :
  In variable variables -> bindsName name variable = true ->
  In name (acceptedNames variables).
Proof.
  induction variables as [|w rest IH]; [intros []|].
  intros [->|Hin] Hb; cbn [acceptedNames].
  - unfold bindsName in Hb.
    destruct (Var.name variable) as [| | | |n|]; try discriminate.
    destruct (Var.value variable); try discriminate.
    apply String.eqb_eq in Hb. subst n. left. reflexivity.
  - destruct (Var.name w) as [| | | |n|]; auto.
    destruct (Var.value w); auto. right. auto.
Qed.

Lemma lastBinding_unique name variables variable :
  List.NoDup (acceptedNames variables) ->
  In variable variables -> bindsName name variable = true ->
  lastBinding name variables = Some (Var.value variable).
Proof.
  induction variables as [|w rest IH]; [intros _ []|].
  intros Hnd Hin Hb. cbn [lastBinding].
  assert (Hrest : List.NoDup (acceptedNames rest)).
  { cbn [acceptedNames] in Hnd. destruct (Var.name w); auto.
    destruct (Var.value w); auto. apply List.NoDup_cons_iff in Hnd. apply Hnd. }
  destruct Hin as [->|Hin].
  - destruct (lastBinding name rest) as [v|] eqn:Hl; [|rewrite Hb; reflexivity].
    exfalso. apply lastBinding_in in Hl as (e & He & Hbe & _).
    pose proof (bindsName_acceptedNames _ _ _ He Hbe) as Hn.
    cbn [acceptedNames] in Hnd. unfold bindsName in Hb.
    destruct (Var.name variable) as [| | | |n|]; try discriminate.
    destruct (Var.value variable); try discriminate.
    apply String.eqb_eq in Hb. subst n.
    apply List.NoDup_cons_iff in Hnd. tauto.
  - rewrite (IH Hrest Hin Hb). reflexivity.
Qed.

Lemma acceptedNames_Permutation variables variables' :
  Permutation variables variables' ->
  Permutation (acceptedNames variables) (acceptedNames variables').
Proof.
  induction 1 as [|w l l' _ IH|w w' l|l l' l'' _ IH1 _ IH2].
  - constructor.
  - cbn [acceptedNames]. destruct (Var.name w); auto.
    destruct (Var.value w); auto.
  - cbn [acceptedNames].
    destruct (Var.name w), (Var.value w), (Var.name w'), (Var.value w');
      try reflexivity; constructor.
  - etransitivity; eassumption.
Qed.

Lemma lastBinding_Permutation name variables variables' :
  List.NoDup (acceptedNames variables) -> Permutation variables variables' ->
  lastBinding name variables = lastBinding name variables'.
Proof.
  intros Hnd Hp.
  assert (Hnd' : List.NoDup (acceptedNames variables')).
  { eapply Permutation_NoDup; [apply acceptedNames_Permutation, Hp | exact Hnd]. }
  destruct (lastBinding name variables) as [v|] eqn:H1.
  - apply lastBinding_in in H1 as (e & He & Hb & <-).
    symmetry. apply lastBinding_unique; [exact Hnd' | | exact Hb].
    eapply Permutation_in; eassumption.
  - destruct (lastBinding name variables') as [v|] eqn:H2; [|reflexivity].
    apply lastBinding_in in H2 as (e & He & Hb & <-).
    rewrite (lastBinding_unique name variables e) in H1; [discriminate | exact Hnd | | exact Hb].
    eapply Permutation_in; [symmetry; exact Hp | exact He].
Qed.

(** X3: when the names of the accepted entries are pairwise distinct, the
    mapping does not depend on the order of the list. *)
Theorem buildVariableContext_order (variables variables' : list Var.t) :
  List.NoDup (acceptedNames variables) ->
  Permutation variables variables' ->
  buildVariableContext variables = buildVariableContext variables'.
Proof.
  intros Hnd Hp. apply map_eq. intros name.
  rewrite !buildVariableContext_lookup.
  rewrite (lastBinding_Permutation name _ _ Hnd Hp). reflexivity.
Qed.

Lemma buildVariableContext_order_witness :
  buildVariableContext
    [Var.mk (JStr "a") (JNum 2); Var.mk (JStr "b") (JNum 0.5); Var.mk JNull (JNum 1)]
  = buildVariableContext
      [Var.mk JNull (JNum 1); Var.mk (JStr "b") (JNum 0.5); Var.mk (JStr "a") (JNum 2)].
Proof.
  apply buildVariableContext_order.
  - repeat constructor; cbn; intuition discriminate.
  - eapply perm_trans; [apply perm_swap|].
    eapply perm_trans; [apply perm_skip, perm_swap|]. apply perm_swap.
Defined.

(** ** The composition resolver *)

Lemma replaceCalls_no_call funcName callback s :
  hasCall funcName s = false -> replaceCalls funcName callback 0 s = Value s.
Proof.
  induction s as [|c t IH]; [reflexivity|].
  cbn [hasCall replaceCalls].
  destruct (matchCall funcName (String c t)); [discriminate|].
  intros H. rewrite (IH H). reflexivity.
Qed.

Lemma forEachFunction_no_call engine self currentFuncId variables functions expr :
  forallb (fun func => negb (resolves currentFuncId expr func)) functions = true ->
  forEachFunction (resolveFunction engine self currentFuncId variables)
    functions expr = Value expr.
Proof.
  induction functions as [|func rest IH]; [reflexivity|].
  cbn [forallb forEachFunction]. intros H.
  apply andb_true_iff in H as [Hf Hrest].
  assert (Hstep : resolveFunction engine self currentFuncId variables expr func
                  = Value expr).
  { destruct func as [func|]; [|reflexivity]. cbn [resolveFunction resolves] in *.
    destruct (_ || _); [reflexivity|]. cbn in Hf.
    apply negb_true_iff in Hf. apply replaceCalls_no_call, Hf. }
  rewrite Hstep. exact (IH Hrest).
Qed.

(** X4: the functions named by identifiers, as the data model has them. When
    no function takes part in the resolution of the text (the list is empty,
    or each entry is null, the current function, invisible, or has no call
    in the text), the composing evaluator is the simple one, and it makes no
    nested call. *)
Theorem evaluateExpression_without_calls
  (engine : Context -> string -> option JsVal) (n : nat) (expr : string)
  (xValue : float) (independentVar : string) (currentFuncId : option nat)
  (functions : list (option FunctionDef.t)) (variables : list Var.t) :
  namedByIdentifiers functions = true ->
  forallb (fun func => negb (resolves currentFuncId expr func)) functions = true ->
  evaluateExpression engine (S n) expr xValue independentVar currentFuncId
    functions variables
  = evaluateExpressionSimple engine expr xValue independentVar variables.
Proof.
  intros _ H. rewrite evaluateExpression_S.
  rewrite forEachFunction_no_call by exact H. reflexivity.
Qed.

Lemma evaluateExpression_without_calls_witness :
  let f := FunctionDef.mk 1 "a*sin(b*x) + c" true "x" "f" in
  let g := FunctionDef.mk 2 "x^2" false "x" "g" in
  evaluateExpression (jsEngine exampleMath) 1 "g(x) + x*f" 3 "x" (Some 1%nat)
    [Some f; None; Some g] []
  = evaluateExpressionSimple (jsEngine exampleMath) "g(x) + x*f" 3 "x" [].
Proof.
  exact (evaluateExpression_without_calls (jsEngine exampleMath) 0 "g(x) + x*f"
           3 "x" (Some 1%nat)
           [Some (FunctionDef.mk 1 "a*sin(b*x) + c" true "x" "f"); None;
            Some (FunctionDef.mk 2 "x^2" false "x" "g")] [] eq_refl eq_refl).
Defined.

Lemma append_nil_right s : s +:+ "" = s.
Proof.
  induction s as [|a s IH]; [reflexivity|]. rewrite append_cons, IH. reflexivity.
Qed.

(** X5: a text that is one call of the only function, named by an identifier
    as the data model has it. When the argument
    evaluates to a number and the expression of the function evaluates at it
    to a number, the call evaluates to what the decimal text of that number
    evaluates to; otherwise the call is evaluated as it stands. *)
Theorem evaluateExpression_single_call
  (engine : Context -> string -> option JsVal) (n : nat) (expr innerExpr : string)
  (xValue : float) (independentVar : string) (currentFuncId : option nat)
  (func : FunctionDef.t) (variables : list Var.t) :
  let funcName := orDefault (FunctionDef.dependentVar func) "f" in
  let funcIndepVar := orDefault (FunctionDef.independentVar func) "x" in
  namedByIdentifiers [Some func] = true ->
  matchCall funcName expr = Some (expr, innerExpr) ->
  Some (FunctionDef.id func) <> currentFuncId ->
  FunctionDef.visible func = true ->
  evaluateExpression engine (S (S n)) expr xValue independentVar currentFuncId
    [Some func] variables
  = match evaluateExpressionSimple engine innerExpr xValue independentVar
            variables with
    | Value (Some innerValue) =>
        match evaluateExpressionSimple engine (FunctionDef.expr func)
                innerValue funcIndepVar variables with
        | Value (Some funcValue) =>
            evaluateExpressionSimple engine (numberToString funcValue) xValue
              independentVar variables
        | _ => evaluateExpressionSimple engine expr xValue independentVar variables
        end
    | _ => evaluateExpressionSimple engine expr xValue independentVar variables
    end.
Proof.
  intros funcName funcIndepVar _ Hm Hid Hvis.
  rewrite evaluateExpression_eq. unfold resolvedText.
  cbn [fold_left resolvedFunction]. rewrite Hvis.
  rewrite bool_decide_eq_false_2 by exact Hid. cbn [orb negb].
  fold funcName.
  assert (Hrw : forall sub, rewriteCalls funcName sub 0 expr = sub expr innerExpr).
  { intros sub.
    destruct expr as [|c t].
    { apply matchCall_inner in Hm as (_ & _ & Hm). destruct funcName; discriminate Hm. }
    cbn [rewriteCalls]. rewrite Hm.
    assert (Hskip : forall p k, rewriteCalls funcName sub (String.length p + k) p = "").
    { induction p as [|a p IH]; intros k; [destruct k; reflexivity|]. apply IH. }
    cbn [String.length Nat.pred].
    rewrite <- (Nat.add_0_r (String.length t)), Hskip. apply append_nil_right. }
  rewrite Hrw. unfold substitution. fold funcIndepVar.
  rewrite (evaluateExpressionSimple_eq engine innerExpr).
  destruct (settle (engine _ (preprocessExpression innerExpr))) as [innerValue|];
    [|rewrite evaluateExpressionSimple_eq; reflexivity].
  rewrite (evaluateExpressionSimple_eq engine (FunctionDef.expr func)).
  destruct (settle (engine _ (preprocessExpression (FunctionDef.expr func))))
    as [funcValue|];
    rewrite evaluateExpressionSimple_eq; reflexivity.
Qed.

Lemma evaluateExpression_single_call_witness :
  let g := FunctionDef.mk 2 "x*x" true "x" "g" in
  evaluateExpression (jsEngine exampleMath) 2 "g(x+1)" 3 "x" None [Some g] []
  = match evaluateExpressionSimple (jsEngine exampleMath) "x+1" 3 "x" [] with
    | Value (Some innerValue) =>
        match evaluateExpressionSimple (jsEngine exampleMath) "x*x" innerValue
                "x" [] with
        | Value (Some funcValue) =>
            evaluateExpressionSimple (jsEngine exampleMath)
              (numberToString funcValue) 3 "x" []
        | _ => evaluateExpressionSimple (jsEngine exampleMath) "g(x+1)" 3 "x" []
        end
    | _ => evaluateExpressionSimple (jsEngine exampleMath) "g(x+1)" 3 "x" []
    end.
Proof.
  refine (evaluateExpression_single_call (jsEngine exampleMath) 0 "g(x+1)" "x+1"
            3 "x" None (FunctionDef.mk 2 "x*x" true "x" "g") [] eq_refl eq_refl _
            eq_refl).
  discriminate.
Defined.

(** Composition does not always return the value of the function. The
    value is put back into the text in decimal and the text is normalized
    again: for the identity function [f(x) = x], ["f(x)"] at [1e-7] becomes
    ["1e-7"], then ["1*E-7"], and evaluates to [E - 7]; at [1e21] it evaluates
    to [E + 21]; and ["1-f(x)"] at [-2] becomes ["1--2"], which is no
    expression, so that the result is [null] where ["1-x"] gives [3]. *)
Example composition_rereads_decimal_text
  (math : MathFn -> list float -> float) (n : nat) :
  let f := FunctionDef.mk 1 "x" true "x" "f" in
  let direct (expr : string) (x : float) :=
    evaluateExpressionSimple (jsEngine math) expr x "x" [] in
  let composed (expr : string) (x : float) :=
    evaluateExpression (jsEngine math) (S (S n)) expr x "x" None [Some f] [] in
  (direct "x" 1e-7%float = Value (Some 1e-7%float)
   /\ composed "f(x)" 1e-7%float = Value (Some (Math_E - 7)%float))
  /\ (direct "x" 1e21%float = Value (Some 1e21%float)
      /\ composed "f(x)" 1e21%float = Value (Some (Math_E + 21)%float))
  /\ (direct "1-x" (-2)%float = Value (Some 3%float)
      /\ composed "1-f(x)" (-2)%float = Value None).
Proof.
  cbv beta zeta. rewrite !evaluateExpression_eq.
  repeat split; vm_compute; reflexivity.
Qed.

(** ** Names that break the evaluation *)

Lemma jsEngine_bad_name math (ctx : Context) text name v :
  ctx !! name = Some v -> isParameterName name = false ->
  jsEngine math ctx text = None.
Proof.
  intros Hl Hn. unfold jsEngine.
  destruct (forallb _ _) eqn:Hall; [|reflexivity].
  rewrite forallb_forall in Hall.
  apply elem_of_map_to_list, list_elem_of_In in Hl.
  specialize (Hall _ Hl). cbn in Hall. congruence.
Qed.

Lemma isReserved_isParameterName name :
  isReserved name = true -> isParameterName name = false.
Proof.
  intros H. unfold isParameterName. rewrite H. apply andb_false_r.
Qed.

Lemma mergeContext_bound variables independentVar xValue name :
  name <> "__proto__" ->
  lastBinding name variables <> None \/ name = independentVar ->
  exists x,
    mergeContext (buildVariableContext variables) independentVar xValue !! name
    = Some (JNum x).
Proof.
  intros Hp H. rewrite mergeContext_lookup.
  destruct (String.eqb_spec name independentVar) as [->|Hne]; [eauto|].
  destruct H as [H|H]; [|contradiction].
  rewrite buildVariableContext_lookup.
  apply String.eqb_neq in Hp. rewrite Hp.
  destruct (lastBinding name variables) as [v|] eqn:Hv; [|contradiction].
  destruct (lastBinding_number _ _ _ Hv) as [x ->]. eauto.
Qed.

(** X6: the variables, the independent variable and the functions named by
    identifiers, as the data model has them. A reserved word of JavaScript
    as the name of a variable, or of the independent variable, makes every
    evaluation fail, whatever the text: the name cannot be a parameter of the
    function [new Function] builds. *)
Theorem reserved_name_fails_every_evaluation
  (math : MathFn -> list float -> float) (n : nat) (expr : string)
  (xValue : float) (independentVar : string) (currentFuncId : option nat)
  (functions : list (option FunctionDef.t)) (variables : list Var.t)
  (name : string) :
  identifierVariables variables = true ->
  isIdentifierLike independentVar = true ->
  namedByIdentifiers functions = true ->
  isReserved name = true ->
  lastBinding name variables <> None \/ name = independentVar ->
  evaluateExpressionSimple (jsEngine math) expr xValue independentVar variables
  = Value None
  /\ evaluateExpression (jsEngine math) (S (S n)) expr xValue independentVar
       currentFuncId functions variables = Value None.
Proof.
  intros _ _ _ Hr Hb.
  assert (Hp : name <> "__proto__") by (intros ->; discriminate Hr).
  destruct (mergeContext_bound variables independentVar xValue name Hp Hb)
    as [x Hx].
  pose proof (isReserved_isParameterName _ Hr) as Hn.
  rewrite evaluateExpressionSimple_eq, evaluateExpression_eq.
  rewrite !(jsEngine_bad_name math _ _ name _ Hx Hn). split; reflexivity.
Qed.

Lemma reserved_name_fails_witness :
  evaluateExpressionSimple (jsEngine exampleMath) "1 + 1" 0 "x"
    [Var.mk (JStr "if") (JNum 1)] = Value None
  /\ evaluateExpression (jsEngine exampleMath) 2 "1 + 1" 0 "x" None []
       [Var.mk (JStr "if") (JNum 1)] = Value None.
Proof.
  refine (reserved_name_fails_every_evaluation exampleMath 0 "1 + 1" 0 "x" None
            [] [Var.mk (JStr "if") (JNum 1)] "if" eq_refl eq_refl eq_refl
            eq_refl _).
  left. discriminate.
Defined.




(** * The application *)

(** ** The function list *)

Lemma applyFnUpdate_id u f : Fn.id (applyFnUpdate u f) = Fn.id f.
Proof. destruct u; reflexivity. Qed.

Lemma updated_ids id u fs :
  map Fn.id (map (fun f => if (Fn.id f =? id)%nat then applyFnUpdate u f else f) fs)
  = map Fn.id fs.
Proof.
  rewrite map_map. apply map_ext. intros f.
  destruct (Fn.id f =? id)%nat; [apply applyFnUpdate_id | reflexivity].
Qed.

Lemma updateFunction_ids s id u next :
  map Fn.id (App.functions (App.updateFunction s id u next))
  = map Fn.id (App.functions s).
Proof. apply updated_ids. Qed.

Lemma max_id_bound ids i : In i ids -> (i <= fold_right Nat.max 0%nat ids)%nat.
Proof.
  induction ids as [|j ids IH]; cbn; [tauto|].
  intros [->|H]; [lia | specialize (IH H); lia].
Qed.

Lemma newId_fresh s : ~ In (App.newId s) (map Fn.id (App.functions s)).
Proof.
  intros H. apply max_id_bound in H. unfold App.newId in H. lia.
Qed.

Lemma hasFunction_In s id : App.hasFunction s id = true -> In id (map Fn.id (App.functions s)).
Proof.
  unfold App.hasFunction. rewrite existsb_exists.
  intros (f & Hf & He). apply Nat.eqb_eq in He. subst id. apply in_map, Hf.
Qed.

Lemma filter_ids id fs :
  map Fn.id (List.filter (fun f => negb (Fn.id f =? id)%nat) fs)
  = List.filter (fun i => negb (i =? id)%nat) (map Fn.id fs).
Proof.
  induction fs as [|f fs IH]; cbn; [reflexivity|].
  destruct (Fn.id f =? id)%nat; cbn; [exact IH | f_equal; exact IH].
Qed.

Lemma find_other id fs :
  List.NoDup (map Fn.id fs) -> (1 < List.length fs)%nat ->
  exists f, find (fun f => negb (Fn.id f =? id)%nat) fs = Some f.
Proof.
  destruct fs as [|f [|g fs]]; cbn; try lia. intros Hnd _.
  destruct (Nat.eqb_spec (Fn.id f) id) as [Hf|Hf]; cbn; [|eauto].
  destruct (Nat.eqb_spec (Fn.id g) id) as [Hg|Hg]; cbn; [|eauto].
  apply List.NoDup_cons_iff in Hnd. destruct Hnd as [Hn _].
  exfalso. apply Hn. left. congruence.
Qed.

Lemma find_other_In id fs f :
  find (fun f => negb (Fn.id f =? id)%nat) fs = Some f ->
  In (Fn.id f) (List.filter (fun i => negb (i =? id)%nat) (map Fn.id fs)).
Proof.
  intros H. apply find_some in H. destruct H as [Hin Hne].
  apply filter_In. split; [apply in_map, Hin | exact Hne].
Qed.

Lemma deleteFunction_invariant s id s' :
  functionsInvariant s -> App.deleteFunction s id = Value s' ->
  functionsInvariant s'.
Proof.
  intros (Hne & Hnd & Hsel) H. unfold App.deleteFunction in H.
  destruct (1 <? List.length (App.functions s))%nat eqn:Hlen;
    [|inversion H; subst; repeat split; assumption].
  apply Nat.ltb_lt in Hlen.
  destruct (find_other id (App.functions s) Hnd Hlen) as [f Hf].
  assert (Hf' := find_other_In _ _ _ Hf).
  assert (Hfilter : List.NoDup
            (List.filter (fun i => negb (i =? id)%nat) (map Fn.id (App.functions s))))
    by (apply List.NoDup_filter, Hnd).
  destruct (Nat.eqb_spec (App.selectedFunction s) id) as [He|He].
  - rewrite Hf in H. inversion H; subst s'; clear H.
    unfold functionsInvariant; cbn. rewrite filter_ids.
    repeat split; [|exact Hfilter|exact Hf'].
    intros Hnil. rewrite <- filter_ids, Hnil in Hf'. destruct Hf'.
  - inversion H; subst s'; clear H.
    unfold functionsInvariant; cbn. rewrite filter_ids.
    assert (Hin : In (App.selectedFunction s)
              (List.filter (fun i => negb (i =? id)%nat) (map Fn.id (App.functions s)))).
    { apply filter_In. split; [exact Hsel|]. apply negb_true_iff, Nat.eqb_neq, He. }
    repeat split; [|exact Hfilter|exact Hin].
    intros Hnil. rewrite <- filter_ids, Hnil in Hin.
    destruct Hin.
Qed.

Lemma NoDup_snoc {A} (l : list A) x :
  List.NoDup l -> ~ In x l -> List.NoDup (l ++ [x])%list.
Proof.
  induction l as [|a l IH]; cbn; intros Hnd Hn.
  - constructor; [intros []|constructor].
  - apply List.NoDup_cons_iff in Hnd. destruct Hnd as [Ha Hl].
    constructor.
    + rewrite in_app_iff. cbn. intros [H|[H|[]]]; [tauto|subst; tauto].
    + apply IH; tauto.
Qed.

Lemma addFunction_invariant s : functionsInvariant s -> functionsInvariant (App.addFunction s).
Proof.
  intros (Hne & Hnd & Hsel).
  unfold functionsInvariant, App.addFunction; cbn.
  rewrite map_app; cbn. repeat split.
  - intros H. apply app_eq_nil in H. destruct H as [_ H]. discriminate.
  - apply NoDup_snoc; [exact Hnd | apply newId_fresh].
  - apply in_or_app. left. exact Hsel.
Qed.

Lemma updateFunction_invariant s id u :
  functionsInvariant s -> functionsInvariant (App.updateFunction s id u s).
Proof.
  intros (Hne & Hnd & Hsel). unfold functionsInvariant.
  rewrite updateFunction_ids. cbn. repeat split; try assumption.
  intros H. apply map_eq_nil in H. contradiction.
Qed.

Lemma leftSideBlur_functions s id value :
  App.leftSideBlur s id value = s \/
  exists var, App.leftSideBlur s id value
              = App.updateFunction s id (FIndependentVar var) s.
Proof.
  unfold App.leftSideBlur.
  destruct (simpleMatch _) as [[name var]|]; [right; exists var; reflexivity|].
  destruct (varMatch _) as [var|]; [right; exists var; reflexivity|].
  left; reflexivity.
Qed.

Lemma handle_functionsInvariant parseFloat s e s' :
  functionsInvariant s -> App.offered s e = true ->
  App.handle parseFloat s e = Value s' -> functionsInvariant s'.
Proof.
  intros Hinv Hoff H.
  destruct e; cbn in H, Hoff;
    try (inversion H; subst s'; clear H);
    try (apply updateFunction_invariant; exact Hinv);
    try exact Hinv.
  - apply addFunction_invariant, Hinv.
  - destruct Hinv as (Hne & Hnd & _). repeat split; try assumption.
    apply hasFunction_In, Hoff.
  - eapply deleteFunction_invariant; eassumption.
  - destruct (leftSideBlur_functions s id value) as [->|[var ->]];
      [exact Hinv | apply updateFunction_invariant, Hinv].
  - unfold App.addVariable.
    repeat match goal with |- context [if ?b then _ else _] => destruct b end;
      exact Hinv.
Qed.

Lemma reachable_functionsInvariant parseFloat s :
  App.reachable parseFloat s -> functionsInvariant s.
Proof.
  induction 1 as [|s e s' _ IH Hoff Hh].
  - repeat split; [discriminate | | left; reflexivity].
    constructor; [intros []|constructor].
  - exact (handle_functionsInvariant parseFloat s e s' IH Hoff Hh).
Qed.

(** X8: in every state the component can reach, the function list is not
    empty, the ids of its functions are pairwise distinct, and the selected
    function is one of the list. *)
Theorem reachable_functions parseFloat (s : App.t) :
  App.reachable parseFloat s ->
  App.functions s <> [] /\
  List.NoDup (map Fn.id (App.functions s)) /\
  In (App.selectedFunction s) (map Fn.id (App.functions s)).
Proof. apply reachable_functionsInvariant. Qed.

Lemma reachable_functions_witness :
  let s := App.addFunction App.initial in
  App.functions s <> [] /\
  List.NoDup (map Fn.id (App.functions s)) /\
  In (App.selectedFunction s) (map Fn.id (App.functions s)).
Proof.
  apply (reachable_functions (fun _ => 0%float)).
  apply (App.reachable_event _ App.initial App.ClickAddFunction);
    [apply App.reachable_initial | reflexivity | reflexivity].
Defined.

(** X9: no handler throws: in every state the component can reach, every
    event the render offers is handled to a next state. For [deleteFunction]
    this needs the ids to be distinct: the function it selects in place of the
    deleted one is there to be found. *)
Theorem handlers_never_throw parseFloat (s : App.t) (e : App.Event) :
  App.reachable parseFloat s -> App.offered s e = true ->
  exists s', App.handle parseFloat s e = Value s'.
Proof.
  intros Hr Hoff. apply reachable_functionsInvariant in Hr.
  destruct Hr as (_ & Hnd & _).
  destruct e; try (cbn; eauto; fail).
  unfold App.offered in Hoff. unfold App.handle.
  apply andb_true_iff in Hoff. destruct Hoff as [_ Hlen].
  unfold App.deleteFunction. rewrite Hlen. apply Nat.ltb_lt in Hlen.
  destruct (find_other id (App.functions s) Hnd Hlen) as [f ->].
  destruct (_ =? _)%nat; eauto.
Qed.

Lemma handlers_never_throw_witness :
  exists s', App.handle (fun _ => 0%float) (App.addFunction App.initial)
               (App.ClickDeleteFunction 1) = Value s'.
Proof.
  apply handlers_never_throw; [|reflexivity].
  apply (App.reachable_event _ App.initial App.ClickAddFunction);
    [apply App.reachable_initial | reflexivity | reflexivity].
Defined.

Lemma letters_NoDup : List.NoDup App.letters.
Proof.
  unfold App.letters.
  repeat (constructor; [cbn; intuition discriminate|]). constructor.
Qed.

Lemma nextLetter_used s :
  In (App.nextLetter s) (App.usedLetters s) <->
  (forall l, In l App.letters -> In l (App.usedLetters s)).
Proof.
  unfold App.nextLetter.
  destruct (find _ App.letters) as [l|] eqn:Hf.
  - apply find_some in Hf. destruct Hf as [Hl Hn].
    apply negb_true_iff in Hn.
    assert (Hnot : ~ In l (App.usedLetters s)).
    { intros Hin. assert (existsb (String.eqb l) (App.usedLetters s) = true);
        [|congruence].
      apply existsb_exists. exists l. split; [exact Hin | apply String.eqb_refl]. }
    split; [contradiction | intros H; exfalso; exact (Hnot (H l Hl))].
  - split; [|intros H; apply H; left; reflexivity].
    intros _ l Hl. pose proof (find_none _ _ Hf l Hl) as Hn. cbn in Hn.
    apply negb_false_iff, existsb_exists in Hn.
    destruct Hn as (l' & Hin & He). apply String.eqb_eq in He. subst. exact Hin.
Qed.

(** X10: [addFunction] appends one function to a list that is not empty. Its
    id is the id of no function of the list. Its letter is the letter of a
    function of the list exactly when all seventeen letters are taken, which
    needs seventeen functions: below that the letter is new. *)
Theorem addFunction_fresh (s : App.t) :
  App.functions s <> [] ->
  exists f,
    App.functions (App.addFunction s) = (App.functions s ++ [f])%list /\
    ~ In (Fn.id f) (map Fn.id (App.functions s)) /\
    (In (Fn.dependentVar f) (App.usedLetters s) <->
     forall l, In l App.letters -> In l (App.usedLetters s)) /\
    ((List.length (App.functions s) < 17)%nat ->
     ~ In (Fn.dependentVar f) (App.usedLetters s)).
Proof.
  intros _. eexists. split; [reflexivity|]. cbn [Fn.id Fn.dependentVar].
  split; [apply newId_fresh|]. split; [apply nextLetter_used|].
  intros Hlen Hin. destruct (nextLetter_used s) as [Hall _].
  specialize (Hall Hin). clear Hin. rename Hall into Hin.
  pose proof (List.NoDup_incl_length letters_NoDup Hin) as Hle.
  unfold App.usedLetters in Hle. rewrite length_map in Hle.
  change (List.length App.letters) with 17%nat in Hle. lia.
Qed.

Lemma addFunction_fresh_witness :
  exists f,
    App.functions (App.addFunction App.initial) = (App.functions App.initial ++ [f])%list /\
    ~ In (Fn.id f) (map Fn.id (App.functions App.initial)) /\
    (In (Fn.dependentVar f) (App.usedLetters App.initial) <->
     forall l, In l App.letters -> In l (App.usedLetters App.initial)) /\
    ((List.length (App.functions App.initial) < 17)%nat ->
     ~ In (Fn.dependentVar f) (App.usedLetters App.initial)).
Proof.
  apply addFunction_fresh. discriminate.
Defined.

(** ** The left side of a function *)

Lemma updated_dependentVar id u fs :
  (forall v, u <> FDependentVar v) ->
  map Fn.dependentVar
    (map (fun f => if (Fn.id f =? id)%nat then applyFnUpdate u f else f) fs)
  = map Fn.dependentVar fs.
Proof.
  intros Hu. rewrite map_map. apply map_ext. intros f.
  destruct (Fn.id f =? id)%nat; [|reflexivity].
  destruct u; try reflexivity. destruct (Hu value). reflexivity.
Qed.

(** X11: the blur handler of the left side never changes the name of a
    function. Its two calls of [updateFunction] both start from the list of
    the render, and the list of the second call, which has the old name,
    replaces the list of the first. *)
Theorem leftSideBlur_keeps_dependentVar (s : App.t) (id : nat) (value : string) :
  map Fn.dependentVar (App.functions (App.leftSideBlur s id value))
  = map Fn.dependentVar (App.functions s).
Proof.
  destruct (leftSideBlur_functions s id value) as [->|[var ->]]; [reflexivity|].
  apply updated_dependentVar. discriminate.
Qed.

Lemma spanWhile_word w rest :
  forallb isWord (list_ascii_of_string w) = true ->
  spanWhile isWord (w +:+ String "(" rest) = (w, String "(" rest)
  /\ spanWhile isWord (w +:+ String ")" rest) = (w, String ")" rest).
Proof.
  induction w as [|c w IH]; [intros _; split; reflexivity|].
  cbn [list_ascii_of_string forallb]. intros H.
  apply andb_true_iff in H. destruct H as [Hc Hw].
  destruct (IH Hw) as [IH1 IH2].
  change (String c w +:+ String "(" rest) with (String c (w +:+ String "(" rest)).
  change (String c w +:+ String ")" rest) with (String c (w +:+ String ")" rest)).
  cbn [spanWhile]. rewrite Hc, IH1, IH2. split; reflexivity.
Qed.

Lemma spanWhile_all P w a :
  spanWhile P w = (a, "") -> forallb P (list_ascii_of_string w) = true.
Proof.
  revert a. induction w as [|d w IH]; [reflexivity|].
  cbn [spanWhile]. destruct (P d) eqn:Hd; [|discriminate].
  destruct (spanWhile P w) as [a' r'] eqn:Hs'. intros a [= <- ->].
  cbn. rewrite Hd. exact (IH a' eq_refl).
Qed.

Lemma isIdentifierName_inv name :
  isIdentifierName name = true ->
  exists c w, name = String c w /\ isWordStart c = true
              /\ forallb isWord (list_ascii_of_string w) = true.
Proof.
  unfold isIdentifierName, matchIdentifier.
  destruct name as [|c w]; [discriminate|].
  destruct (isWordStart c) eqn:Hc; [|discriminate].
  destruct (spanWhile isWord w) as [a r] eqn:Hs.
  destruct r; [|discriminate]. intros _.
  exists c, w. split; [reflexivity|]. split; [exact Hc|].
  exact (spanWhile_all _ _ _ Hs).
Qed.

Lemma matchIdentifier_call name rest :
  isIdentifierName name = true ->
  matchIdentifier (name +:+ String "(" rest) = Some (name, String "(" rest)
  /\ matchIdentifier (name +:+ String ")" rest) = Some (name, String ")" rest).
Proof.
  intros H. destruct (isIdentifierName_inv name H) as (c & w & -> & Hc & Hw).
  change (String c w +:+ String "(" rest) with (String c (w +:+ String "(" rest)).
  change (String c w +:+ String ")" rest) with (String c (w +:+ String ")" rest)).
  unfold matchIdentifier. rewrite Hc.
  destruct (spanWhile_word w rest Hw) as [-> ->]. split; reflexivity.
Qed.

Lemma trimEnd_close s : trimEnd (s +:+ ")") = s +:+ ")".
Proof.
  induction s as [|c s IH]; [reflexivity|].
  change (String c s +:+ ")") with (String c (s +:+ ")")).
  cbn [trimEnd]. rewrite IH.
  destruct s; reflexivity.
Qed.

Lemma trim_call name var :
  isIdentifierName name = true ->
  trim (name +:+ String "(" (var +:+ ")")) = name +:+ String "(" (var +:+ ")").
Proof.
  intros Hn. unfold trim.
  assert (Hs : trimStart (name +:+ String "(" (var +:+ ")"))
               = name +:+ String "(" (var +:+ ")")).
  { destruct (isIdentifierName_inv name Hn) as (c & w & -> & Hw & _).
    change (String c w +:+ String "(" (var +:+ ")"))
      with (String c (w +:+ String "(" (var +:+ ")"))).
    cbn [trimStart].
    destruct (isTrimSpace c) eqn:Hc; [|reflexivity].
    exfalso. clear -Hc Hw. revert Hc Hw.
    destruct c as [[] [] [] [] [] [] [] []]; vm_compute; congruence. }
  rewrite Hs.
  assert (Ha : name +:+ String "(" (var +:+ ")") = (name +:+ String "(" var) +:+ ")").
  { clear. induction name as [|c w IH]; [reflexivity|].
    change (String c w +:+ String "(" (var +:+ ")"))
      with (String c (w +:+ String "(" (var +:+ ")"))).
    change ((String c w +:+ String "(" var) +:+ ")")
      with (String c ((w +:+ String "(" var) +:+ ")")).
    f_equal. exact IH. }
  rewrite Ha. apply trimEnd_close.
Qed.

(** X12: for a left side of the form [name(var)], two identifiers, the blur
    handler does what [updateFunction] does for the field [independentVar]
    and [var]: the independent variable typed is the one stored, the name
    typed is dropped. *)
Theorem leftSideBlur_simple (s : App.t) (id : nat) (name var : string) :
  isIdentifierName name = true -> isIdentifierName var = true ->
  App.leftSideBlur s id (name +:+ "(" +:+ var +:+ ")")
  = App.updateFunction s id (FIndependentVar var) s.
Proof.
  intros Hn Hv. unfold App.leftSideBlur.
  change ("(" +:+ var +:+ ")") with (String "(" (var +:+ ")")).
  rewrite (trim_call name var Hn). unfold simpleMatch.
  destruct (matchIdentifier_call name (var +:+ ")") Hn) as [-> _].
  destruct (matchIdentifier_call var "" Hv) as [_ ->].
  reflexivity.
Qed.

Lemma leftSideBlur_simple_witness :
  App.leftSideBlur App.initial 1 "g(t)"
  = App.updateFunction App.initial 1 (FIndependentVar "t") App.initial.
Proof.
  exact (leftSideBlur_simple App.initial 1 "g" "t" eq_refl eq_refl).
Defined.

(** ** The variable list and the context *)

Lemma lastBinding_cons name v rest :
  lastBinding name (UiVar.toVariable v :: rest) =
  match lastBinding name rest with
  | Some w => Some w
  | None => if String.eqb (UiVar.name v) name then Some (JNum (UiVar.value v)) else None
  end.
Proof. reflexivity. Qed.

Lemma lastBinding_snoc name vs w :
  lastBinding name (map UiVar.toVariable (vs ++ [w])%list) =
  if String.eqb (UiVar.name w) name then Some (JNum (UiVar.value w))
  else lastBinding name (map UiVar.toVariable vs).
Proof.
  induction vs as [|v vs IH].
  - cbn. destruct (String.eqb _ _); reflexivity.
  - cbn [app map]. rewrite !lastBinding_cons, IH.
    destruct (String.eqb (UiVar.name w) name); reflexivity.
Qed.

Lemma lastBinding_deleted name deleted vs :
  lastBinding name
    (map UiVar.toVariable
       (List.filter (fun v => negb (String.eqb (UiVar.name v) deleted)) vs)) =
  if String.eqb name deleted then None
  else lastBinding name (map UiVar.toVariable vs).
Proof.
  induction vs as [|v vs IH].
  - cbn. destruct (String.eqb _ _); reflexivity.
  - cbn [List.filter map]. rewrite lastBinding_cons.
    destruct (String.eqb_spec (UiVar.name v) deleted) as [Hd|Hd]; cbn [negb map].
    + rewrite IH. destruct (String.eqb_spec name deleted) as [Hn|Hn].
      * reflexivity.
      * destruct (lastBinding name (map UiVar.toVariable vs)); [reflexivity|].
        destruct (String.eqb_spec (UiVar.name v) name); [congruence|reflexivity].
    + rewrite lastBinding_cons, IH.
      destruct (String.eqb_spec name deleted) as [Hn|Hn]; [|reflexivity].
      destruct (String.eqb_spec (UiVar.name v) name); [congruence|reflexivity].
Qed.

Lemma variableContext_lookup s name :
  variableContext s !! name =
  if String.eqb name "__proto__" then None
  else lastBinding name (map UiVar.toVariable (App.variables s)).
Proof. apply buildVariableContext_lookup. Qed.

Lemma addVariable_cases s :
  (App.error (App.addVariable s) <> "" /\
   App.variables (App.addVariable s) = App.variables s) \/
  (App.addVariable s =
     App.setError ""
       (App.setNewVarName ""
          (App.setVariables
             (App.variables s ++
              [UiVar.mk (App.newVarName s) 1 (-10) 10 0.1 (Some false)]) s)) /\
   App.newVarName s <> "" /\
   existsb (String.eqb (toLowerCase (App.newVarName s))) App.reserved = false /\
   existsb (fun v => String.eqb (UiVar.name v) (App.newVarName s)) (App.variables s)
     = false /\
   isIdentifierName (App.newVarName s) = true).
Proof.
  unfold App.addVariable.
  destruct (String.eqb_spec (App.newVarName s) "") as [He|He];
    [left; split; [discriminate|reflexivity]|].
  destruct (existsb _ App.reserved) eqn:Hr;
    [left; split; [|reflexivity]|].
  { cbn. destruct (App.newVarName s); discriminate. }
  destruct (existsb _ (App.variables s)) eqn:Hx;
    [left; split; [discriminate|reflexivity]|].
  destruct (isIdentifierName _) eqn:Hi; cbn [negb];
    [|left; split; [discriminate|reflexivity]].
  right. auto.
Qed.

(** X13: after [addVariable] succeeded (it left no error message), the new
    name reads 1 in the context of the variables and every other name reads
    what it read before. The one name that is accepted and never bound is
    [__proto__]. *)
Theorem addVariable_context (s : App.t) (name : string) :
  App.error (App.addVariable s) = "" ->
  variableContext (App.addVariable s) !! name =
  if String.eqb name (App.newVarName s) && negb (String.eqb name "__proto__")
  then Some (JNum 1) else variableContext s !! name.
Proof.
  intros Herr. destruct (addVariable_cases s) as [[H _]|(-> & _)]; [contradiction|].
  rewrite !variableContext_lookup. cbn [App.variables App.setError App.setNewVarName App.setVariables].
  rewrite lastBinding_snoc. cbn [UiVar.name UiVar.value].
  rewrite (String.eqb_sym (App.newVarName s) name).
  destruct (String.eqb name "__proto__"), (String.eqb name (App.newVarName s));
    reflexivity.
Qed.

(** X14: after [deleteVariable] the deleted name is unbound in the context of
    the variables, and every other name reads what it read before. *)
Theorem deleteVariable_context (s : App.t) (deleted name : string) :
  variableContext (App.deleteVariable s deleted) !! name =
  if String.eqb name deleted then None else variableContext s !! name.
Proof.
  rewrite !variableContext_lookup. cbn [App.deleteVariable App.variables App.setVariables].
  unfold App.deleteVariable. cbn [App.variables App.setVariables].
  rewrite lastBinding_deleted.
  destruct (String.eqb name "__proto__"), (String.eqb name deleted); reflexivity.
Qed.

Lemma addVariable_context_witness :
  variableContext (App.addVariable (App.setNewVarName "k" App.initial)) !! "k" =
  Some (JNum 1).
Proof.
  exact (addVariable_context (App.setNewVarName "k" App.initial) "k" eq_refl).
Defined.

Lemma applyVarUpdate_name field x v : UiVar.name (applyVarUpdate field x v) = UiVar.name v.
Proof. destruct field; reflexivity. Qed.

Lemma applyVarUpdate_locked field x v :
  UiVar.isLocked (applyVarUpdate field x v) = UiVar.isLocked v.
Proof. destruct field; reflexivity. Qed.

Lemma applyVarUpdate_value field x v :
  UiVar.value (applyVarUpdate field x v) = if isValueField field then x else UiVar.value v.
Proof. destruct field; reflexivity. Qed.

Lemma lastBinding_updated name updated field x vs :
  lastBinding name
    (map UiVar.toVariable
       (map (fun v => if String.eqb (UiVar.name v) updated
                      then applyVarUpdate field x v else v) vs)) =
  match lastBinding name (map UiVar.toVariable vs) with
  | Some v => Some (if String.eqb name updated && isValueField field then JNum x else v)
  | None => None
  end.
Proof.
  induction vs as [|v vs IH]; [reflexivity|].
  cbn [map]. rewrite !lastBinding_cons, IH.
  destruct (lastBinding name (map UiVar.toVariable vs)); [reflexivity|].
  destruct (String.eqb_spec (UiVar.name v) updated) as [Hu|Hu].
  - rewrite applyVarUpdate_name, applyVarUpdate_value.
    destruct (String.eqb_spec (UiVar.name v) name) as [Hn|Hn]; [|reflexivity].
    subst. rewrite String.eqb_refl. cbn. destruct (isValueField field); reflexivity.
  - destruct (String.eqb_spec (UiVar.name v) name) as [Hn|Hn]; [|reflexivity].
    subst. apply String.eqb_neq in Hu. rewrite Hu. reflexivity.
Qed.

(** X15: [updateVariable] binds no new name; it changes what a bound name
    reads only for the updated name and only through the field [value], to
    what [parseFloat] makes of the text (not a number, for a text that is
    none). *)
Theorem updateVariable_context parseFloat (s : App.t) (updated : string)
  (field : VarField) (value : string) (name : string) :
  variableContext (App.updateVariable parseFloat s updated field value) !! name =
  match variableContext s !! name with
  | Some v =>
      Some (if String.eqb name updated && isValueField field
            then JNum (parseFloat value) else v)
  | None => None
  end.
Proof.
  rewrite !variableContext_lookup. unfold App.updateVariable.
  cbn [App.variables App.setVariables].
  destruct (String.eqb name "__proto__"); [reflexivity|].
  apply lastBinding_updated.
Qed.

Lemma acceptedNames_ui vs :
  acceptedNames (map UiVar.toVariable vs) = map UiVar.name vs.
Proof. induction vs as [|v vs IH]; [reflexivity|]. cbn. f_equal. exact IH. Qed.

Lemma NoDup_map_eq {A B} (f : A -> B) l a b :
  List.NoDup (map f l) -> In a l -> In b l -> f a = f b -> a = b.
Proof.
  induction l as [|c l IH]; [intros _ []|].
  cbn. intros Hnd Ha Hb He.
  apply List.NoDup_cons_iff in Hnd. destruct Hnd as [Hc Hl].
  destruct Ha as [->|Ha], Hb as [->|Hb]; auto.
  - exfalso. apply Hc. rewrite He. apply in_map, Hb.
  - exfalso. apply Hc. rewrite <- He. apply in_map, Ha.
Qed.

Lemma hasUnlocked_not_pi s name :
  variablesInvariant s -> App.hasUnlocked s name = true -> name <> "pi".
Proof.
  intros (Hnd & Hpi & _) H ->. unfold App.hasUnlocked in H.
  apply existsb_exists in H. destruct H as (v & Hv & H).
  apply andb_true_iff in H. destruct H as [Hn Hl].
  apply String.eqb_eq in Hn.
  assert (v = piVariable) by (eapply NoDup_map_eq; eauto).
  subst v. discriminate.
Qed.

Lemma filter_names name vs :
  map UiVar.name (List.filter (fun v => negb (String.eqb (UiVar.name v) name)) vs)
  = List.filter (fun n => negb (String.eqb n name)) (map UiVar.name vs).
Proof.
  induction vs as [|v vs IH]; cbn; [reflexivity|].
  destruct (String.eqb (UiVar.name v) name); cbn; [exact IH | f_equal; exact IH].
Qed.

Lemma deleteVariable_invariant s name :
  variablesInvariant s -> name <> "pi" ->
  variablesInvariant (App.deleteVariable s name).
Proof.
  intros (Hnd & Hpi & Hl) Hn. unfold variablesInvariant, App.deleteVariable.
  cbn [App.variables App.setVariables]. rewrite filter_names. repeat split.
  - apply List.NoDup_filter, Hnd.
  - apply filter_In. split; [exact Hpi|].
    change (UiVar.name piVariable) with "pi".
    apply negb_true_iff, String.eqb_neq. congruence.
  - intros v Hv. apply filter_In in Hv. apply Hl, Hv.
Qed.

Lemma updateVariable_invariant parseFloat s name field value :
  variablesInvariant s -> name <> "pi" ->
  variablesInvariant (App.updateVariable parseFloat s name field value).
Proof.
  intros (Hnd & Hpi & Hl) Hn. unfold variablesInvariant, App.updateVariable.
  cbn [App.variables App.setVariables]. repeat split.
  - rewrite map_map.
    erewrite map_ext; [exact Hnd|]. intros v. cbn.
    destruct (String.eqb _ _); [apply applyVarUpdate_name | reflexivity].
  - apply in_map_iff. exists piVariable. split; [|exact Hpi].
    change (UiVar.name piVariable) with "pi".
    apply String.eqb_neq in Hn. rewrite String.eqb_sym, Hn. reflexivity.
  - intros v' Hv'. apply in_map_iff in Hv'. destruct Hv' as (v & <- & Hv).
    destruct (String.eqb_spec (UiVar.name v) name) as [He|He]; [|apply Hl, Hv].
    rewrite applyVarUpdate_locked. intros Hlock.
    specialize (Hl v Hv Hlock). subst v.
    change (UiVar.name piVariable) with "pi" in He. congruence.
Qed.

Lemma addVariable_invariant s :
  variablesInvariant s -> variablesInvariant (App.addVariable s).
Proof.
  intros (Hnd & Hpi & Hl).
  destruct (addVariable_cases s) as [[_ He]|(-> & _ & _ & Hx & _)].
  - unfold variablesInvariant. rewrite He. auto.
  - unfold variablesInvariant.
    cbn [App.variables App.setError App.setNewVarName App.setVariables].
    rewrite map_app. cbn [map UiVar.name]. repeat split.
    + apply NoDup_snoc; [exact Hnd|]. intros Hin.
      apply in_map_iff in Hin. destruct Hin as (v & Hv & Hin).
      assert (existsb (fun v => String.eqb (UiVar.name v) (App.newVarName s))
                (App.variables s) = true); [|congruence].
      apply existsb_exists. exists v. split; [exact Hin|].
      apply String.eqb_eq, Hv.
    + apply in_or_app. left. exact Hpi.
    + intros v Hv. apply in_app_or in Hv. destruct Hv as [Hv|[<-|[]]];
        [apply Hl, Hv | discriminate].
Qed.

Lemma variablesInvariant_same s s' :
  App.variables s' = App.variables s -> variablesInvariant s -> variablesInvariant s'.
Proof. unfold variablesInvariant. intros ->. auto. Qed.

Lemma deleteFunction_variables s id s' :
  App.deleteFunction s id = Value s' -> App.variables s' = App.variables s.
Proof.
  unfold App.deleteFunction.
  destruct (1 <? _)%nat; [|intros [= <-]; reflexivity].
  destruct (_ =? _)%nat; [|intros [= <-]; reflexivity].
  destruct (find _ _); [intros [= <-]; reflexivity | discriminate].
Qed.

Lemma leftSideBlur_variables s id value :
  App.variables (App.leftSideBlur s id value) = App.variables s.
Proof.
  destruct (leftSideBlur_functions s id value) as [->|[var ->]]; reflexivity.
Qed.

Lemma handle_variablesInvariant parseFloat s e s' :
  variablesInvariant s -> App.offered s e = true ->
  App.handle parseFloat s e = Value s' -> variablesInvariant s'.
Proof.
  intros Hinv Hoff H.
  destruct e; cbn [App.handle] in H;
    try (injection H as <-);
    try (apply (variablesInvariant_same s); [reflexivity | exact Hinv]).
  - apply (variablesInvariant_same s); [|exact Hinv].
    eapply deleteFunction_variables, H.
  - apply (variablesInvariant_same s); [|exact Hinv].
    apply leftSideBlur_variables.
  - apply deleteVariable_invariant; [exact Hinv|].
    eapply hasUnlocked_not_pi; [exact Hinv | exact Hoff].
  - apply updateVariable_invariant; [exact Hinv|].
    eapply hasUnlocked_not_pi; [exact Hinv | exact Hoff].
  - apply addVariable_invariant, Hinv.
Qed.

Lemma reachable_variablesInvariant parseFloat s :
  App.reachable parseFloat s -> variablesInvariant s.
Proof.
  induction 1 as [|s e s' _ IH Hoff Hh].
  - repeat split.
    + repeat constructor; cbn; intuition discriminate.
    + left. reflexivity.
    + intros v [<-|[<-|[<-|[<-|[]]]]]; [reflexivity|discriminate..].
  - exact (handle_variablesInvariant parseFloat s e s' IH Hoff Hh).
Qed.

(** X16: in every state the component can reach, the names of the variables
    are pairwise distinct and [pi] reads [Math.PI] in the context of the
    variables: the constant of the first render can be neither deleted nor
    updated, and no variable can be added under its name. *)
Theorem reachable_variables parseFloat (s : App.t) :
  App.reachable parseFloat s ->
  List.NoDup (map UiVar.name (App.variables s)) /\
  variableContext s !! "pi" = Some (JNum Math_PI).
Proof.
  intros Hr. apply reachable_variablesInvariant in Hr.
  destruct Hr as (Hnd & Hpi & _). split; [exact Hnd|].
  rewrite variableContext_lookup.
  change (String.eqb "pi" "__proto__") with false. cbv iota.
  rewrite (lastBinding_unique "pi" _ (UiVar.toVariable piVariable)).
  - reflexivity.
  - rewrite acceptedNames_ui. exact Hnd.
  - apply in_map, Hpi.
  - reflexivity.
Qed.

Lemma reachable_variables_witness :
  let s := App.updateVariable (fun _ => 2%float) App.initial "a" VValue "2" in
  List.NoDup (map UiVar.name (App.variables s)) /\
  variableContext s !! "pi" = Some (JNum Math_PI).
Proof.
  apply (reachable_variables (fun _ => 2%float)).
  apply (App.reachable_event _ App.initial (App.ChangeVariable "a" VValue "2"));
    [apply App.reachable_initial | reflexivity | reflexivity].
Defined.

(** ** Names the checks let through *)

Lemma reservedWords_accepted :
  forallb (fun name =>
             negb (String.eqb name "")
             && negb (existsb (String.eqb (toLowerCase name)) App.reserved)
             && isIdentifierName name) reservedWords = true.
Proof. vm_compute. reflexivity. Qed.

Lemma isReserved_accepted name :
  isReserved name = true ->
  name <> "" /\
  existsb (String.eqb (toLowerCase name)) App.reserved = false /\
  isIdentifierName name = true.
Proof.
  intros H. unfold isReserved in H. apply existsb_exists in H.
  destruct H as (w & Hw & He). apply String.eqb_eq in He. subst w.
  pose proof reservedWords_accepted as Hall. rewrite forallb_forall in Hall.
  specialize (Hall _ Hw).
  apply andb_true_iff in Hall. destruct Hall as [Hall Hi].
  apply andb_true_iff in Hall. destruct Hall as [Hn Hr].
  apply negb_true_iff in Hn, Hr. apply String.eqb_neq in Hn. auto.
Qed.

Lemma addVariable_accepted s :
  App.newVarName s <> "" ->
  existsb (String.eqb (toLowerCase (App.newVarName s))) App.reserved = false ->
  existsb (fun v => String.eqb (UiVar.name v) (App.newVarName s)) (App.variables s)
    = false ->
  isIdentifierName (App.newVarName s) = true ->
  App.addVariable s =
    App.setError ""
      (App.setNewVarName ""
         (App.setVariables
            (App.variables s ++
             [UiVar.mk (App.newVarName s) 1 (-10) 10 0.1 (Some false)])%list s)).
Proof.
  intros Hn Hr Hx Hi. unfold App.addVariable.
  apply String.eqb_neq in Hn. rewrite Hn, Hr, Hx, Hi. reflexivity.
Qed.

Lemma evaluateExpression_bad_name math n expr xValue independentVar
  currentFuncId functions variables name :
  isReserved name = true -> lastBinding name variables <> None ->
  evaluateExpression (jsEngine math) (S (S n)) expr xValue independentVar
    currentFuncId functions variables = Value None.
Proof.
  intros Hr Hb.
  assert (Hp : name <> "__proto__") by (intros ->; discriminate Hr).
  destruct (mergeContext_bound variables independentVar xValue name Hp (or_introl Hb))
    as [x Hx].
  pose proof (isReserved_isParameterName _ Hr) as Hn.
  rewrite evaluateExpression_eq.
  rewrite (jsEngine_bad_name math _ _ name _ Hx Hn). reflexivity.
Qed.

(** X17: the checks of [addVariable] let the reserved words of JavaScript
    through: a reserved word that is not yet a variable is added without an
    error message, and from then on every expression evaluates to [null], for
    every function and at every point. *)
Theorem addVariable_accepts_reserved_words
  (math : MathFn -> list float -> float) (n : nat) (s : App.t) (expr : string)
  (xValue : float) (independentVar : string) (currentFuncId : option nat) :
  isReserved (App.newVarName s) = true ->
  existsb (fun v => String.eqb (UiVar.name v) (App.newVarName s)) (App.variables s)
    = false ->
  App.error (App.addVariable s) = "" /\
  App.evaluateExpression (jsEngine math) (S (S n)) (App.addVariable s) expr xValue
    independentVar currentFuncId = Value None.
Proof.
  intros Hr Hx. destruct (isReserved_accepted _ Hr) as (Hn & Hl & Hi).
  rewrite (addVariable_accepted s Hn Hl Hx Hi). split; [reflexivity|].
  unfold App.evaluateExpression, evaluateExpressionUtil.
  apply (evaluateExpression_bad_name _ _ _ _ _ _ _ _ (App.newVarName s) Hr).
  cbn [App.variables App.setError App.setNewVarName App.setVariables].
  rewrite lastBinding_snoc. cbn [UiVar.name]. rewrite String.eqb_refl. discriminate.
Qed.

Lemma addVariable_accepts_reserved_words_witness :
  let s := App.addVariable (App.setNewVarName "in" App.initial) in
  App.error s = "" /\
  App.evaluateExpression (jsEngine exampleMath) 2 s "a*sin(b*x) + c" 1 "x" (Some 1%nat)
  = Value None.
Proof.
  exact (addVariable_accepts_reserved_words exampleMath 0
           (App.setNewVarName "in" App.initial) "a*sin(b*x) + c" 1 "x" (Some 1%nat)
           eq_refl eq_refl).
Defined.

(** ** Rendering *)

(** Floating-point facts for the loops. *)

Lemma SFcompare_eq_finite s1 m1 e1 s2 m2 e2 :
  SFcompare (S754_finite s1 m1 e1) (S754_finite s2 m2 e2) = Some Eq ->
  s1 = s2 /\ m1 = m2 /\ e1 = e2.
Proof.
  cbn. destruct s1, s2; try discriminate;
    destruct (Z.compare_spec e1 e2) as [He|He|He]; try discriminate;
    intros [= H].
  - apply CompOpp_iff in H. cbn in H. apply Pos.compare_eq in H. auto.
  - apply Pos.compare_eq in H. auto.
Qed.

Lemma SFsub_equal a b :
  SFeqb a b = true ->
  (forall s, a <> S754_infinity s) ->
  exists s, SFsub prec emax b a = S754_zero s.
Proof.
  unfold SFeqb. intros H Hinf.
  destruct (SFcompare a b) as [[| |]|] eqn:Hc; try discriminate. clear H.
  destruct a as [sa|sa| |sa ma ea], b as [sb|sb| |sb mb eb];
    try discriminate; try (destruct sa; discriminate); try (destruct sb; discriminate).
  - cbn. destruct sa, sb; eauto.
  - destruct (Hinf sa). reflexivity.
  - apply SFcompare_eq_finite in Hc. destruct Hc as (-> & -> & ->).
    exists false. cbn [SFsub]. cbv zeta. rewrite Z.sub_diag. reflexivity.
Qed.

Lemma SFadd_zero_compare x s b :
  SFcompare (SFadd prec emax x (S754_zero s)) b = SFcompare x b.
Proof.
  destruct x as [sx|sx| |sx mx ex]; try reflexivity.
  cbn. destruct sx, s; reflexivity.
Qed.

Lemma Prim2SF_500 : exists m e, Prim2SF 500 = S754_finite false m e.
Proof. eexists. eexists. vm_compute. reflexivity. Qed.

Lemma Prim2SF_100 : exists m e, Prim2SF 100 = S754_finite false m e.
Proof. eexists. eexists. vm_compute. reflexivity. Qed.

Lemma is_infinity_spec x :
  is_infinity x = false -> forall s, Prim2SF x <> S754_infinity s.
Proof.
  unfold is_infinity. intros H s Hx.
  rewrite FloatAxioms.eqb_spec, FloatAxioms.abs_spec, Hx in H. vm_compute in H. discriminate.
Qed.

(** With equal bounds the step is a zero, and adding it leaves the loop
    variable where it is. *)
Lemma zero_range_step xMin xMax d x :
  (xMin =? xMax)%float = true -> is_infinity xMin = false ->
  (exists m e, Prim2SF d = S754_finite false m e) ->
  (x + (xMax - xMin) / d <=? xMax)%float = (x <=? xMax)%float.
Proof.
  intros He Hi (m & e & Hd).
  rewrite FloatAxioms.eqb_spec in He.
  destruct (SFsub_equal _ _ He (is_infinity_spec _ Hi)) as [s Hs].
  rewrite !FloatAxioms.leb_spec, FloatAxioms.add_spec, FloatAxioms.div_spec, FloatAxioms.sub_spec.
  unfold SF64add, SF64div, SF64sub. rewrite Hs, Hd. cbn [SFdiv].
  unfold SFleb. rewrite SFadd_zero_compare. reflexivity.
Qed.

Lemma equal_leb x y : (x =? y)%float = true -> (x <=? y)%float = true.
Proof.
  rewrite FloatAxioms.eqb_spec, FloatAxioms.leb_spec. unfold SFeqb, SFleb.
  destruct (SFcompare _ _) as [[| |]|]; congruence.
Qed.

Lemma generatePointsFrom_stuck engine n s expr independentVar funcId step :
  (forall x, (x <=? App.xMax s)%float = true ->
             (x + step <=? App.xMax s)%float = true) ->
  forall fuel x points,
    (x <=? App.xMax s)%float = true ->
    App.generatePointsFrom engine (S (S n)) fuel s expr independentVar funcId
      step x points = OutOfFuel.
Proof.
  intros Hstep. induction fuel as [|fuel IH]; intros x points Hx; [reflexivity|].
  cbn [App.generatePointsFrom]. rewrite Hx.
  unfold App.evaluateExpression, evaluateExpressionUtil.
  rewrite evaluateExpression_eq. cbn [mbind Outcome_bind].
  apply IH, Hstep, Hx.
Qed.

(** X18: when [xMin] and [xMax] are the same finite number, the loop of
    [generatePoints] never ends: its step is zero, and for every number of
    iterations the loop is still running. *)
Theorem generatePoints_equal_bounds
  (engine : Context -> string -> option JsVal) (n fuel : nat) (s : App.t)
  (expr independentVar : string) (funcId : option nat) :
  (App.xMin s =? App.xMax s)%float = true ->
  is_infinity (App.xMin s) = false ->
  App.generatePoints engine (S (S n)) fuel s expr independentVar funcId = OutOfFuel.
Proof.
  intros He Hi. unfold App.generatePoints.
  apply generatePointsFrom_stuck; [|apply equal_leb, He].
  intros x Hx. rewrite zero_range_step; auto using Prim2SF_500.
Qed.

Lemma generatePoints_equal_bounds_witness :
  App.generatePoints (jsEngine exampleMath) 2 1000 (App.setXMin 2 (App.setXMax 2 App.initial))
    "a*sin(b*x) + c" "x" (Some 1%nat) = OutOfFuel.
Proof.
  apply generatePoints_equal_bounds; reflexivity.
Defined.

(** X19: the loop of [generatePoints] never ends either when [xMin] is not
    above [xMax] and adding the step to [xMin] gives [xMin] back, as it does
    for a range that is small beside its bounds. *)
Theorem generatePoints_absorbed_step
  (engine : Context -> string -> option JsVal) (n fuel : nat) (s : App.t)
  (expr independentVar : string) (funcId : option nat) :
  (App.xMin s <=? App.xMax s)%float = true ->
  (App.xMin s + (App.xMax s - App.xMin s) / 500)%float = App.xMin s ->
  App.generatePoints engine (S (S n)) fuel s expr independentVar funcId = OutOfFuel.
Proof.
  intros Hle Hstep. unfold App.generatePoints.
  generalize (@nil string). induction fuel as [|fuel IH]; intros points; [reflexivity|].
  cbn [App.generatePointsFrom]. rewrite Hle.
  unfold App.evaluateExpression, evaluateExpressionUtil.
  rewrite evaluateExpression_eq. cbn [mbind Outcome_bind].
  rewrite Hstep. apply IH.
Qed.

Lemma generatePoints_absorbed_step_witness :
  App.generatePoints (jsEngine exampleMath) 2 1000
    (App.setXMin 1e17 (App.setXMax 100000000000000016 App.initial))
    "a*sin(b*x) + c" "x" (Some 1%nat) = OutOfFuel.
Proof.
  apply generatePoints_absorbed_step; reflexivity.
Defined.

Lemma tangentPointsFrom_stuck s slope y0 :
  (forall x, (x <=? App.xMax s)%float = true ->
             (x + (App.xMax s - App.xMin s) / 100 <=? App.xMax s)%float = true) ->
  forall fuel x points,
    (x <=? App.xMax s)%float = true ->
    App.tangentPointsFrom fuel s slope y0 x points = OutOfFuel.
Proof.
  intros Hstep. induction fuel as [|fuel IH]; intros x points Hx; [reflexivity|].
  cbn [App.tangentPointsFrom]. rewrite Hx. cbv zeta.
  apply IH, Hstep, Hx.
Qed.

(** X20: when [xMin] and [xMax] are the same finite number and the function
    has a value and a slope at [xPoint], the loop of [getTangentPoints] never
    ends. *)
Theorem getTangentPoints_equal_bounds
  (engine : Context -> string -> option JsVal) (depth fuel : nat) (s : App.t)
  (func : Fn.t) (y0 slope : float) :
  (App.xMin s =? App.xMax s)%float = true ->
  is_infinity (App.xMin s) = false ->
  App.evaluateExpression engine depth s (Fn.expr func) (App.xPoint s)
    (orDefault (Fn.independentVar func) "x") (Some (Fn.id func)) = Value (Some y0) ->
  App.tangentSlope engine depth s func (orDefault (Fn.independentVar func) "x")
    = Value (Some slope) ->
  App.getTangentPoints engine depth fuel s func = OutOfFuel.
Proof.
  intros He Hi Hy Hs. unfold App.getTangentPoints. cbv zeta.
  rewrite Hy. cbn [mbind Outcome_bind]. rewrite Hs. cbn [mbind Outcome_bind].
  apply tangentPointsFrom_stuck; [|apply equal_leb, He].
  intros x Hx. rewrite zero_range_step; auto using Prim2SF_100.
Qed.

Lemma getTangentPoints_equal_bounds_witness :
  App.getTangentPoints (jsEngine exampleMath) 2 1000
    (App.setXMin 2 (App.setXMax 2 App.initial))
    (Fn.mk 1 "a*x + c" "" "#3b82f6" true "Function 1" "x" "f") = OutOfFuel.
Proof.
  refine (getTangentPoints_equal_bounds (jsEngine exampleMath) 2 1000
            (App.setXMin 2 (App.setXMax 2 App.initial))
            (Fn.mk 1 "a*x + c" "" "#3b82f6" true "Function 1" "x" "f")
            _ _ eq_refl eq_refl _ _);
    vm_compute; reflexivity.
Defined.
